(** * Token accounting of [CrewTokenTracker]

    A shallow embedding of
    [lib/crewai/src/crewai/utilities/token_tracker_handler.py] and the
    properties of its three operations, [record_llm_call], [get_metrics]
    and [reset].

    Conventions of the embedding.
    - Python [int] is unbounded: token counts are [Z].
    - [str] is [string]; a [Dict[str, _]] is a [gmap string _]; a [List[_]]
      is a [list], [append] adds at the end.
    - [datetime.now()] reads the wall clock: the instant read is an argument
      of the operation.
    - A [WorkflowTokenMetrics] instance is a mutable object that
      [get_metrics] hands out by reference.  Objects live in a store and are
      named by their address; the tracker's attribute [_metrics] holds an
      address, and so does a caller that keeps the result of [get_metrics].
      The dicts, lists and per-agent / per-task aggregates an instance points
      to are created for that instance, are written only through it and
      never move to another one, so they are kept inside its store cell: a
      caller that holds one of them sees the matching part of the cell.  An
      [LLMCallMetrics] is shared by three lists but is never written after
      its construction: it is a plain value.
    - [with self._lock] is an uncontended acquire and release in a
      sequential run: an operation is one step.
    - A subscript [d[k]] on a dict raises [KeyError] when [k] is absent:
      operations compute in an error monad. *)

From stdpp Require Import gmap strings list fin_maps.
From Stdlib Require Import ZArith Lia Ascii.

Local Open Scope Z_scope.

(** ** Data model *)

(** [datetime]: an instant, as a count of clock ticks. *)
Definition datetime : Type := Z.

Module LLMCallMetrics.
Record t : Type := mk {
  timestamp : datetime;
  agent_name : string;
  task_name : string;
  model : string;
  prompt_tokens : Z;
  completion_tokens : Z;
  total_tokens : Z;
  call_type : string
}.
End LLMCallMetrics.

Module AgentTokenMetrics.
Record t : Type := mk {
  agent_name : string;
  total_tokens : Z;
  prompt_tokens : Z;
  completion_tokens : Z;
  call_count : Z;
  calls : list LLMCallMetrics.t
}.

(** [AgentTokenMetrics(agent_name=a)]: the dataclass defaults. *)
Definition new (a : string) : t := mk a 0 0 0 0 [].
End AgentTokenMetrics.

Module TaskTokenMetrics.
Record t : Type := mk {
  task_name : string;
  agent_name : string;
  total_tokens : Z;
  prompt_tokens : Z;
  completion_tokens : Z;
  call_count : Z;
  calls : list LLMCallMetrics.t
}.

(** [TaskTokenMetrics(task_name=tn, agent_name=a)]. *)
Definition new (tn a : string) : t := mk tn a 0 0 0 0 [].
End TaskTokenMetrics.

Module WorkflowTokenMetrics.
Record t : Type := mk {
  total_tokens : Z;
  prompt_tokens : Z;
  completion_tokens : Z;
  per_agent : gmap string AgentTokenMetrics.t;
  per_task : gmap string TaskTokenMetrics.t;
  all_calls : list LLMCallMetrics.t
}.

(** [WorkflowTokenMetrics()]: the dataclass defaults. *)
Definition new : t := mk 0 0 0 ∅ ∅ [].
End WorkflowTokenMetrics.

(** ** Store, exceptions and the monad of operations *)

(** Address of a [WorkflowTokenMetrics] object. *)
Definition ref : Type := nat.

(** The object store together with the tracker's one data attribute.
    Objects are never freed: a new one takes the next address. *)
Record world : Type := World {
  objects : list WorkflowTokenMetrics.t;
  _metrics : ref
}.

(** [KeyError] is Python's.  [Unallocated] is the store's own: a read or
    write at an address no object has, which no run from [init] meets. *)
Inductive exn : Type :=
| KeyError (key : string)
| Unallocated (r : ref).

Inductive result (A : Type) : Type :=
| Ok (a : A)
| Raise (e : exn).
Arguments Ok {A} a.
Arguments Raise {A} e.

Definition M (A : Type) : Type := world → result (A * world).

#[export] Instance M_ret : MRet M := λ A a w, Ok (a, w).

#[export] Instance M_bind : MBind M := λ A B k c w,
  match c w with
  | Ok (a, w') => k a w'
  | Raise e => Raise e
  end.

(** Reading the object at an address: what a holder of the reference sees. *)
Definition read (r : ref) : M WorkflowTokenMetrics.t :=
  λ w, match objects w !! r with
       | Some m => Ok (m, w)
       | None => Raise (Unallocated r)
       end.

(** Writing the object at an address, in place. *)
Definition write (r : ref) (m : WorkflowTokenMetrics.t) : M unit :=
  λ w, match objects w !! r with
       | Some _ => Ok (tt, World (<[r := m]> (objects w)) (_metrics w))
       | None => Raise (Unallocated r)
       end.

(** Constructing a new object: it takes the first unused address. *)
Definition alloc (m : WorkflowTokenMetrics.t) : M ref :=
  λ w, Ok (length (objects w), World (objects w ++ [m]) (_metrics w)).

(** [self._metrics] as an expression and as an assignment target. *)
Definition get_self_metrics : M ref := λ w, Ok (_metrics w, w).
Definition set_self_metrics (r : ref) : M unit :=
  λ w, Ok (tt, World (objects w) r).

(** [d[k]] on a dict. *)
Definition getitem {A} (d : gmap string A) (k : string) : result A :=
  match d !! k with
  | Some v => Ok v
  | None => Raise (KeyError k)
  end.

(** [if k not in d: d[k] = v]. *)
Definition setdefault {A} (d : gmap string A) (k : string) (v : A) : gmap string A :=
  match d !! k with
  | Some _ => d
  | None => <[k := v]> d
  end.

(** ** The operations *)

(** [f"{task_name}_{agent_name}"]. *)
Definition task_key (task_name agent_name : string) : string :=
  task_name +:+ "_" +:+ agent_name.

(** The body of [record_llm_call] on the object [self._metrics] points to. *)
Definition record_into (now : datetime) (agent_name task_name model : string)
    (prompt_tokens completion_tokens : Z) (call_type : string)
    (m : WorkflowTokenMetrics.t) : result WorkflowTokenMetrics.t :=
  let total := prompt_tokens + completion_tokens in
  let call_record :=
    LLMCallMetrics.mk now agent_name task_name model
      prompt_tokens completion_tokens total call_type in
  (* workflow totals *)
  let w_total := WorkflowTokenMetrics.total_tokens m + total in
  let w_prompt := WorkflowTokenMetrics.prompt_tokens m + prompt_tokens in
  let w_completion := WorkflowTokenMetrics.completion_tokens m + completion_tokens in
  let w_calls := WorkflowTokenMetrics.all_calls m ++ [call_record] in
  (* per-agent metrics *)
  let agents :=
    setdefault (WorkflowTokenMetrics.per_agent m) agent_name
      (AgentTokenMetrics.new agent_name) in
  match getitem agents agent_name with
  | Raise e => Raise e
  | Ok am =>
    let am' :=
      AgentTokenMetrics.mk (AgentTokenMetrics.agent_name am)
        (AgentTokenMetrics.total_tokens am + total)
        (AgentTokenMetrics.prompt_tokens am + prompt_tokens)
        (AgentTokenMetrics.completion_tokens am + completion_tokens)
        (AgentTokenMetrics.call_count am + 1)
        (AgentTokenMetrics.calls am ++ [call_record]) in
    let agents' := <[agent_name := am']> agents in
    (* per-task metrics *)
    let key := task_key task_name agent_name in
    let tasks :=
      setdefault (WorkflowTokenMetrics.per_task m) key
        (TaskTokenMetrics.new task_name agent_name) in
    match getitem tasks key with
    | Raise e => Raise e
    | Ok tm =>
      let tm' :=
        TaskTokenMetrics.mk (TaskTokenMetrics.task_name tm)
          (TaskTokenMetrics.agent_name tm)
          (TaskTokenMetrics.total_tokens tm + total)
          (TaskTokenMetrics.prompt_tokens tm + prompt_tokens)
          (TaskTokenMetrics.completion_tokens tm + completion_tokens)
          (TaskTokenMetrics.call_count tm + 1)
          (TaskTokenMetrics.calls tm ++ [call_record]) in
      Ok (WorkflowTokenMetrics.mk w_total w_prompt w_completion
            agents' (<[key := tm']> tasks) w_calls)
    end
  end.

Definition lift_result {A} (r : result A) : M A :=
  λ w, match r with
       | Ok a => Ok (a, w)
       | Raise e => Raise e
       end.

(** [CrewTokenTracker.record_llm_call]: every update goes through
    [self._metrics] to the object it points to. *)
Definition record_llm_call (now : datetime) (agent_name task_name model : string)
    (prompt_tokens completion_tokens : Z) (call_type : string) : M unit :=
  r ← get_self_metrics;
  m ← read r;
  m' ← lift_result (record_into now agent_name task_name model
                      prompt_tokens completion_tokens call_type m);
  write r m'.

(** [CrewTokenTracker.get_metrics]: [return self._metrics]. *)
Definition get_metrics : M ref := get_self_metrics.

(** [CrewTokenTracker.reset]: [self._metrics = WorkflowTokenMetrics()]. *)
Definition reset : M unit :=
  r ← alloc WorkflowTokenMetrics.new;
  set_self_metrics r.

(** [CrewTokenTracker()]: [__init__] on an empty store. *)
Definition init : world := World [WorkflowTokenMetrics.new] 0%nat.

(** ** Sequences of operations *)

(** The arguments of one [record_llm_call], with the instant its
    [datetime.now()] reads. *)
Record llm_call : Type := Call {
  arg_now : datetime;
  arg_agent_name : string;
  arg_task_name : string;
  arg_model : string;
  arg_prompt_tokens : Z;
  arg_completion_tokens : Z;
  arg_call_type : string
}.

Inductive op : Type :=
| RecordLLMCall (c : llm_call)
| GetMetrics
| Reset.

Definition record (c : llm_call) : M unit :=
  record_llm_call (arg_now c) (arg_agent_name c) (arg_task_name c)
    (arg_model c) (arg_prompt_tokens c) (arg_completion_tokens c)
    (arg_call_type c).

Definition step (o : op) : M unit :=
  match o with
  | RecordLLMCall c => record c
  | GetMetrics => get_metrics ;; mret tt
  | Reset => reset
  end.

Fixpoint run (ops : list op) : M unit :=
  match ops with
  | [] => mret tt
  | o :: ops' => step o ;; run ops'
  end.

(** What a caller gets who runs [ops] on a new tracker, calls [get_metrics]
    and reads the object at once. *)
Definition metrics_after (ops : list op) : M WorkflowTokenMetrics.t :=
  run ops ;; r ← get_metrics; read r.

(** A caller runs [before], keeps the result of [get_metrics], reads it,
    lets [after] run and reads the same reference again. *)
Definition observe (before after : list op)
  : M (WorkflowTokenMetrics.t * WorkflowTokenMetrics.t) :=
  run before ;;
  snap ← get_metrics;
  v1 ← read snap;
  run after ;;
  v2 ← read snap;
  mret (v1, v2).

(** The same caller when a [reset] ends the operations [between]: the
    reference is read right after the [reset] and again after [after]. *)
Definition observe_across_reset (before between after : list op)
  : M (WorkflowTokenMetrics.t * WorkflowTokenMetrics.t) :=
  run before ;;
  snap ← get_metrics;
  run between ;;
  reset ;;
  v1 ← read snap;
  run after ;;
  v2 ← read snap;
  mret (v1, v2).

(** A caller keeps the result of [get_metrics], lets the calls [mid] be
    recorded, reads the reference, lets one more call be recorded and reads
    it again: no [reset] comes in between. *)
Definition observe_next_call (before : list op) (mid : list llm_call)
    (c : llm_call) : M (WorkflowTokenMetrics.t * WorkflowTokenMetrics.t) :=
  run before ;;
  snap ← get_metrics;
  run (RecordLLMCall <$> mid) ;;
  v1 ← read snap;
  record c ;;
  v2 ← read snap;
  mret (v1, v2).

(** [reset()] followed at once by [get_metrics()], after [ops]. *)
Definition reset_then_get (ops : list op) : M WorkflowTokenMetrics.t :=
  run ops ;; reset ;; r ← get_metrics; read r.

(** The value an operation returns, if it returns. *)
Definition returned {A} (r : result (A * world)) : option A :=
  match r with
  | Ok (a, _) => Some a
  | Raise _ => None
  end.

(** ** Reference functions of the statements *)

(** Sum of a field over a sequence, and over the entries of a dict. *)
Definition sum_by {A} (f : A → Z) (l : list A) : Z :=
  foldr (λ x acc, f x + acc) 0 l.

Definition map_sum {A} (f : A → Z) (d : gmap string A) : Z :=
  map_fold (λ _ v acc, f v + acc) 0 d.

(** The calls of a sequence of operations that no later [reset] discarded,
    in arrival order; [acc] holds those made so far. *)
Fixpoint live_calls_from (acc : list llm_call) (ops : list op) : list llm_call :=
  match ops with
  | [] => acc
  | RecordLLMCall c :: ops' => live_calls_from (acc ++ [c]) ops'
  | GetMetrics :: ops' => live_calls_from acc ops'
  | Reset :: ops' => live_calls_from [] ops'
  end.

Definition live_calls (ops : list op) : list llm_call := live_calls_from [] ops.

(** The calls of a sequence of operations that come before its first
    [reset]. *)
Fixpoint calls_until_reset (ops : list op) : list llm_call :=
  match ops with
  | [] => []
  | RecordLLMCall c :: ops' => c :: calls_until_reset ops'
  | GetMetrics :: ops' => calls_until_reset ops'
  | Reset :: _ => []
  end.

(** The body of [record_llm_call] on the arguments of [c]. *)
Abbreviation record_call_into c m :=
  (record_into (arg_now c) (arg_agent_name c) (arg_task_name c)
     (arg_model c) (arg_prompt_tokens c) (arg_completion_tokens c)
     (arg_call_type c) m).

(** That body once per call of [cs], in order, on one object. *)
Fixpoint record_all (cs : list llm_call) (m : WorkflowTokenMetrics.t)
  : result WorkflowTokenMetrics.t :=
  match cs with
  | [] => Ok m
  | c :: cs' =>
    match record_call_into c m with
    | Ok m' => record_all cs' m'
    | Raise e => Raise e
    end
  end.

(** The composite key a call is filed under. *)
Definition key_of (c : llm_call) : string :=
  task_key (arg_task_name c) (arg_agent_name c).

Definition arg_total (c : llm_call) : Z :=
  arg_prompt_tokens c + arg_completion_tokens c.

(** The record a call leaves behind. *)
Definition record_of (c : llm_call) : LLMCallMetrics.t :=
  LLMCallMetrics.mk (arg_now c) (arg_agent_name c) (arg_task_name c)
    (arg_model c) (arg_prompt_tokens c) (arg_completion_tokens c)
    (arg_total c) (arg_call_type c).

(** The entry an agent name has after the calls [log]: none when no call
    names it, else the sums over the calls that do. *)
Definition agent_view (a : string) (log : list llm_call)
  : option AgentTokenMetrics.t :=
  match filter (λ c, arg_agent_name c = a) log with
  | [] => None
  | l =>
    Some (AgentTokenMetrics.mk a (sum_by arg_total l)
            (sum_by arg_prompt_tokens l) (sum_by arg_completion_tokens l)
            (Z.of_nat (length l)) (record_of <$> l))
  end.

(** The entry a composite key has after the calls [log]: the names are
    those of the first call filed under the key. *)
Definition task_view (k : string) (log : list llm_call)
  : option TaskTokenMetrics.t :=
  match filter (λ c, key_of c = k) log with
  | [] => None
  | (c0 :: _) as l =>
    Some (TaskTokenMetrics.mk (arg_task_name c0) (arg_agent_name c0)
            (sum_by arg_total l)
            (sum_by arg_prompt_tokens l) (sum_by arg_completion_tokens l)
            (Z.of_nat (length l)) (record_of <$> l))
  end.

(** An object is the faithful account of the calls [log]. *)
Record accounts_for (log : list llm_call) (m : WorkflowTokenMetrics.t) : Prop := {
  acc_calls : WorkflowTokenMetrics.all_calls m = record_of <$> log;
  acc_total : WorkflowTokenMetrics.total_tokens m = sum_by arg_total log;
  acc_prompt : WorkflowTokenMetrics.prompt_tokens m = sum_by arg_prompt_tokens log;
  acc_completion :
    WorkflowTokenMetrics.completion_tokens m = sum_by arg_completion_tokens log;
  acc_agent : ∀ a, WorkflowTokenMetrics.per_agent m !! a = agent_view a log;
  acc_task : ∀ k, WorkflowTokenMetrics.per_task m !! k = task_view k log
}.

(** The three views of an object agree: the entries of each dict sum to
    the workflow totals. *)
Record balanced (m : WorkflowTokenMetrics.t) : Prop := {
  bal_agent_total :
    map_sum AgentTokenMetrics.total_tokens (WorkflowTokenMetrics.per_agent m)
    = WorkflowTokenMetrics.total_tokens m;
  bal_agent_prompt :
    map_sum AgentTokenMetrics.prompt_tokens (WorkflowTokenMetrics.per_agent m)
    = WorkflowTokenMetrics.prompt_tokens m;
  bal_agent_completion :
    map_sum AgentTokenMetrics.completion_tokens (WorkflowTokenMetrics.per_agent m)
    = WorkflowTokenMetrics.completion_tokens m;
  bal_task_total :
    map_sum TaskTokenMetrics.total_tokens (WorkflowTokenMetrics.per_task m)
    = WorkflowTokenMetrics.total_tokens m;
  bal_task_prompt :
    map_sum TaskTokenMetrics.prompt_tokens (WorkflowTokenMetrics.per_task m)
    = WorkflowTokenMetrics.prompt_tokens m;
  bal_task_completion :
    map_sum TaskTokenMetrics.completion_tokens (WorkflowTokenMetrics.per_task m)
    = WorkflowTokenMetrics.completion_tokens m
}.

(** The derived field of a record is the sum of the two counts. *)
Definition derived (r : LLMCallMetrics.t) : Prop :=
  LLMCallMetrics.total_tokens r =
  LLMCallMetrics.prompt_tokens r + LLMCallMetrics.completion_tokens r.

(** The object the tracker points to is the balanced account of [log]. *)
Definition sound (log : list llm_call) (w : world) : Prop :=
  ∃ m, objects w !! _metrics w = Some m ∧ accounts_for log m ∧ balanced m.

(** ** Concrete runs *)

(** One task name under two agents. *)
Definition call_A : llm_call := Call 0 "agent_A" "task_1" "gpt" 10 5 "generation".
Definition call_B : llm_call := Call 1 "agent_B" "task_1" "gpt" 3 2 "generation".
Definition two_agents : list op := [RecordLLMCall call_A; RecordLLMCall call_B].

(** Two different (task, agent) pairs whose composite keys coincide. *)
Definition call_a_bc : llm_call := Call 0 "b_c" "a" "gpt" 1 1 "generation".
Definition call_ab_c : llm_call := Call 1 "c" "a_b" "gpt" 2 2 "generation".
Definition colliding : list op := [RecordLLMCall call_a_bc; RecordLLMCall call_ab_c].

(** Three calls whose task names have no underscore. *)
Definition call_plan_A : llm_call := Call 0 "agent_A" "plan" "gpt" 10 5 "generation".
Definition call_plan_B : llm_call := Call 1 "agent_B" "plan" "gpt" 3 2 "generation".
Definition call_plan_A' : llm_call := Call 2 "agent_A" "plan" "gpt" 1 1 "tool_use".
Definition plain_tasks : list op :=
  [RecordLLMCall call_plan_A; RecordLLMCall call_plan_B;
   RecordLLMCall call_plan_A'].

(** ** Further reference functions *)

(** A name that does not contain the separator of the composite key. *)
Fixpoint underscore_free (s : string) : bool :=
  match s with
  | EmptyString => true
  | String ch s' => if Ascii.eqb ch "_"%char then false else underscore_free s'
  end.

(** A call whose two counts are not negative. *)
Definition nonneg_call (c : llm_call) : Prop :=
  0 ≤ arg_prompt_tokens c ∧ 0 ≤ arg_completion_tokens c.

(** The composite key of a record. *)
Definition record_key (r : LLMCallMetrics.t) : string :=
  task_key (LLMCallMetrics.task_name r) (LLMCallMetrics.agent_name r).

(** The call counts of the entries of both dicts add up to the number of
    records. *)
Record counted (m : WorkflowTokenMetrics.t) : Prop := {
  cnt_agent :
    map_sum AgentTokenMetrics.call_count (WorkflowTokenMetrics.per_agent m)
    = Z.of_nat (length (WorkflowTokenMetrics.all_calls m));
  cnt_task :
    map_sum TaskTokenMetrics.call_count (WorkflowTokenMetrics.per_task m)
    = Z.of_nat (length (WorkflowTokenMetrics.all_calls m))
}.

(** A caller runs [before], calls [get_metrics], lets [mid] run and calls
    [get_metrics] again: the two references returned. *)
Definition get_twice (before mid : list op) : M (ref * ref) :=
  run before ;;
  r1 ← get_metrics;
  run mid ;;
  r2 ← get_metrics;
  mret (r1, r2).

(** A call with its clock reading, model and call type blanked. *)
Definition counts_only (c : llm_call) : llm_call :=
  Call 0 (arg_agent_name c) (arg_task_name c) ""
    (arg_prompt_tokens c) (arg_completion_tokens c) "".

(** The names and numbers of an entry, without its records. *)
Definition agent_counts (e : AgentTokenMetrics.t) : string * Z * Z * Z * Z :=
  (AgentTokenMetrics.agent_name e, AgentTokenMetrics.total_tokens e,
   AgentTokenMetrics.prompt_tokens e, AgentTokenMetrics.completion_tokens e,
   AgentTokenMetrics.call_count e).

Definition task_counts (e : TaskTokenMetrics.t)
  : string * string * Z * Z * Z * Z :=
  (TaskTokenMetrics.task_name e, TaskTokenMetrics.agent_name e,
   TaskTokenMetrics.total_tokens e, TaskTokenMetrics.prompt_tokens e,
   TaskTokenMetrics.completion_tokens e, TaskTokenMetrics.call_count e).

(** ** Dicts and sums *)

Section dict.
Context {A : Type}.
Implicit Types (d : gmap string A) (k : string) (v : A).

Lemma setdefault_lookup d k v :
  setdefault d k v !! k = Some (default v (d !! k)).
Proof.
  unfold setdefault. destruct (d !! k) eqn:E; simpl.
  - done.
  - apply lookup_insert_eq.
Qed.

Lemma getitem_setdefault d k v :
  getitem (setdefault d k v) k = Ok (default v (d !! k)).
Proof. unfold getitem. by rewrite setdefault_lookup. Qed.

Lemma insert_setdefault d k v x :
  <[k := x]> (setdefault d k v) = <[k := x]> d.
Proof.
  unfold setdefault. destruct (d !! k); [done|]. apply insert_insert_eq.
Qed.

Lemma map_sum_empty (f : A → Z) : map_sum f ∅ = 0.
Proof. apply map_fold_empty. Qed.

Lemma map_sum_insert_new (f : A → Z) d k v :
  d !! k = None → map_sum f (<[k := v]> d) = f v + map_sum f d.
Proof.
  intros Hk. unfold map_sum. rewrite map_fold_insert_L; [done| |done].
  intros; lia.
Qed.

Lemma map_sum_insert_old (f : A → Z) d k v old :
  d !! k = Some old → map_sum f (<[k := v]> d) = map_sum f d - f old + f v.
Proof.
  intros Hk. rewrite <- insert_delete_eq.
  rewrite map_sum_insert_new by apply lookup_delete_eq.
  unfold map_sum.
  rewrite (map_fold_delete_L _ _ k old d); [lia| |done].
  intros; lia.
Qed.

(** Replacing or creating an entry moves the sum by the entry's change. *)
Lemma map_sum_insert (f : A → Z) d k v dflt :
  f dflt = 0 →
  map_sum f (<[k := v]> d) = map_sum f d - f (default dflt (d !! k)) + f v.
Proof.
  intros H0. destruct (d !! k) as [old|] eqn:E; simpl.
  - by apply map_sum_insert_old.
  - rewrite map_sum_insert_new by done. lia.
Qed.
End dict.

Lemma sum_by_app {A} (f : A → Z) (l1 l2 : list A) :
  sum_by f (l1 ++ l2) = sum_by f l1 + sum_by f l2.
Proof.
  induction l1 as [|x l1 IH]; simpl; [done|].
  unfold sum_by in *. simpl. rewrite IH. lia.
Qed.

Lemma sum_by_snoc {A} (f : A → Z) (l : list A) (x : A) :
  sum_by f (l ++ [x]) = sum_by f l + f x.
Proof. rewrite sum_by_app. unfold sum_by. simpl. lia. Qed.

(** ** One call on one object *)

(** [record_into] in closed form: no subscript raises, each dict gets one
    entry replaced or created. *)
Lemma record_into_eq now a tn mo p c ct m :
  record_into now a tn mo p c ct m =
  let cr := LLMCallMetrics.mk now a tn mo p c (p + c) ct in
  let am := default (AgentTokenMetrics.new a) (WorkflowTokenMetrics.per_agent m !! a) in
  let tm := default (TaskTokenMetrics.new tn a)
              (WorkflowTokenMetrics.per_task m !! task_key tn a) in
  Ok (WorkflowTokenMetrics.mk
        (WorkflowTokenMetrics.total_tokens m + (p + c))
        (WorkflowTokenMetrics.prompt_tokens m + p)
        (WorkflowTokenMetrics.completion_tokens m + c)
        (<[a := AgentTokenMetrics.mk (AgentTokenMetrics.agent_name am)
                  (AgentTokenMetrics.total_tokens am + (p + c))
                  (AgentTokenMetrics.prompt_tokens am + p)
                  (AgentTokenMetrics.completion_tokens am + c)
                  (AgentTokenMetrics.call_count am + 1)
                  (AgentTokenMetrics.calls am ++ [cr])]>
           (WorkflowTokenMetrics.per_agent m))
        (<[task_key tn a :=
             TaskTokenMetrics.mk (TaskTokenMetrics.task_name tm)
               (TaskTokenMetrics.agent_name tm)
               (TaskTokenMetrics.total_tokens tm + (p + c))
               (TaskTokenMetrics.prompt_tokens tm + p)
               (TaskTokenMetrics.completion_tokens tm + c)
               (TaskTokenMetrics.call_count tm + 1)
               (TaskTokenMetrics.calls tm ++ [cr])]>
           (WorkflowTokenMetrics.per_task m))
        (WorkflowTokenMetrics.all_calls m ++ [cr])).
Proof.
  unfold record_into. cbv zeta.
  rewrite !getitem_setdefault, !insert_setdefault. reflexivity.
Qed.

Lemma record_into_total now a tn mo p c ct m :
  ∃ m', record_into now a tn mo p c ct m = Ok m'.
Proof. rewrite record_into_eq. eauto. Qed.

Lemma record_call_total c m : ∃ m', record_call_into c m = Ok m'.
Proof. apply record_into_total. Qed.

Lemma agent_view_snoc_other a log c :
  arg_agent_name c ≠ a → agent_view a (log ++ [c]) = agent_view a log.
Proof.
  intros Hne. unfold agent_view. rewrite filter_app, filter_cons_False by done.
  rewrite filter_nil, app_nil_r. done.
Qed.

Lemma task_view_snoc_other k log c :
  key_of c ≠ k → task_view k (log ++ [c]) = task_view k log.
Proof.
  intros Hne. unfold task_view. rewrite filter_app, filter_cons_False by done.
  rewrite filter_nil, app_nil_r. done.
Qed.

Lemma agent_view_snoc log c :
  agent_view (arg_agent_name c) (log ++ [c]) =
  let am := default (AgentTokenMetrics.new (arg_agent_name c))
              (agent_view (arg_agent_name c) log) in
  Some (AgentTokenMetrics.mk (AgentTokenMetrics.agent_name am)
          (AgentTokenMetrics.total_tokens am + arg_total c)
          (AgentTokenMetrics.prompt_tokens am + arg_prompt_tokens c)
          (AgentTokenMetrics.completion_tokens am + arg_completion_tokens c)
          (AgentTokenMetrics.call_count am + 1)
          (AgentTokenMetrics.calls am ++ [record_of c])).
Proof.
  unfold agent_view. rewrite filter_app, filter_cons_True by done.
  rewrite filter_nil.
  destruct (filter _ log) as [|x l]; simpl.
  - unfold sum_by; simpl. do 2 f_equal; lia.
  - rewrite !sum_by_snoc, length_app, fmap_app. simpl.
    do 2 f_equal; first [lia | unfold sum_by; simpl; lia].
Qed.

Lemma task_view_snoc log c :
  task_view (key_of c) (log ++ [c]) =
  let tm := default (TaskTokenMetrics.new (arg_task_name c) (arg_agent_name c))
              (task_view (key_of c) log) in
  Some (TaskTokenMetrics.mk (TaskTokenMetrics.task_name tm)
          (TaskTokenMetrics.agent_name tm)
          (TaskTokenMetrics.total_tokens tm + arg_total c)
          (TaskTokenMetrics.prompt_tokens tm + arg_prompt_tokens c)
          (TaskTokenMetrics.completion_tokens tm + arg_completion_tokens c)
          (TaskTokenMetrics.call_count tm + 1)
          (TaskTokenMetrics.calls tm ++ [record_of c])).
Proof.
  unfold task_view. rewrite filter_app, filter_cons_True by done.
  rewrite filter_nil.
  destruct (filter _ log) as [|x l]; simpl.
  - unfold sum_by; simpl. do 2 f_equal; lia.
  - rewrite !sum_by_snoc, length_app, fmap_app. simpl.
    do 2 f_equal; first [lia | unfold sum_by; simpl; lia].
Qed.

Lemma record_accounts log m c :
  accounts_for log m →
  ∃ m', record_call_into c m = Ok m' ∧ accounts_for (log ++ [c]) m'.
Proof.
  intros [Hcalls Htot Hp Hc Hag Htk].
  rewrite record_into_eq. cbv zeta. eexists; split; [reflexivity|].
  split; simpl.
  - by rewrite fmap_app, Hcalls.
  - rewrite sum_by_snoc, Htot. done.
  - by rewrite sum_by_snoc, Hp.
  - by rewrite sum_by_snoc, Hc.
  - intros a. destruct (decide (a = arg_agent_name c)) as [->|Hne].
    + by rewrite lookup_insert_eq, agent_view_snoc, Hag.
    + rewrite lookup_insert_ne, agent_view_snoc_other by done. apply Hag.
  - intros k. destruct (decide (k = key_of c)) as [->|Hne].
    + fold (key_of c). by rewrite lookup_insert_eq, task_view_snoc, Htk.
    + fold (key_of c). rewrite lookup_insert_ne, task_view_snoc_other by done.
      apply Htk.
Qed.

Lemma record_balanced m m' c :
  balanced m → record_call_into c m = Ok m' → balanced m'.
Proof.
  intros [H1 H2 H3 H4 H5 H6]. rewrite record_into_eq. cbv zeta.
  intros [= <-].
  split; simpl.
  1-3: rewrite (map_sum_insert _ _ _ _ (AgentTokenMetrics.new (arg_agent_name c)))
    by done.
  4-6: rewrite (map_sum_insert _ _ _ _
         (TaskTokenMetrics.new (arg_task_name c) (arg_agent_name c))) by done.
  all: simpl; lia.
Qed.

Lemma new_accounts : accounts_for [] WorkflowTokenMetrics.new.
Proof. split; try done; intros; apply lookup_empty. Qed.

Lemma new_balanced : balanced WorkflowTokenMetrics.new.
Proof. split; apply map_sum_empty. Qed.

(** ** Operations on the store *)

Lemma record_eq c w m :
  objects w !! _metrics w = Some m →
  record c w =
  match record_call_into c m with
  | Ok m' => Ok (tt, World (<[_metrics w := m']> (objects w)) (_metrics w))
  | Raise e => Raise e
  end.
Proof.
  intros Hm. unfold record, record_llm_call, get_self_metrics, read, write.
  unfold mbind, M_bind. simpl. rewrite Hm.
  unfold lift_result. destruct (record_into _ _ _ _ _ _ _ m); [|done].
  by rewrite Hm.
Qed.

Lemma reset_eq w :
  reset w = Ok (tt, World (objects w ++ [WorkflowTokenMetrics.new])
                      (length (objects w))).
Proof. reflexivity. Qed.

Lemma run_cons o ops w :
  run (o :: ops) w =
  match step o w with
  | Ok (_, w') => run ops w'
  | Raise e => Raise e
  end.
Proof. simpl. unfold mbind, M_bind. by destruct (step o w) as [[[] ?]|]. Qed.

(** Every operation keeps the tracker sound for the calls still live, and
    none raises. *)
Lemma run_sound ops : ∀ acc w,
  sound acc w →
  ∃ w', run ops w = Ok (tt, w') ∧ sound (live_calls_from acc ops) w'.
Proof.
  induction ops as [|[c| |] ops IH]; intros acc w Hs.
  - by exists w.
  - destruct Hs as (m & Hm & Hacc & Hbal).
    destruct (record_accounts acc m c Hacc) as (m' & Hrec & Hacc').
    rewrite run_cons. simpl step. rewrite (record_eq c w m Hm), Hrec.
    apply IH. exists m'. simpl. split_and!; [|done|by eapply record_balanced].
    apply list_lookup_insert_eq. by eapply lookup_lt_Some.
  - rewrite run_cons. simpl. by apply IH.
  - rewrite run_cons. simpl step. rewrite reset_eq. apply IH.
    exists WorkflowTokenMetrics.new. simpl.
    split_and!; [|apply new_accounts|apply new_balanced].
    by rewrite lookup_app_r, Nat.sub_diag.
Qed.

Lemma init_sound : sound [] init.
Proof.
  exists WorkflowTokenMetrics.new.
  split_and!; [done|apply new_accounts|apply new_balanced].
Qed.

Lemma metrics_after_eq ops w' m :
  run ops init = Ok (tt, w') → objects w' !! _metrics w' = Some m →
  metrics_after ops init = Ok (m, w').
Proof.
  intros Hrun Hm. unfold metrics_after, mbind, M_bind.
  rewrite Hrun. unfold get_metrics, get_self_metrics, read. by rewrite Hm.
Qed.

(** After any operations, [get_metrics] returns the balanced account of
    the calls made since the last [reset]. *)
Lemma metrics_after_sound ops :
  ∃ m w, metrics_after ops init = Ok (m, w)
         ∧ accounts_for (live_calls ops) m ∧ balanced m.
Proof.
  destruct (run_sound ops [] init init_sound) as (w & Hrun & m & Hm & Ha & Hb).
  exists m, w. split_and!; [|done..]. by apply metrics_after_eq.
Qed.

Lemma bind_ok {A B} (c : M A) (k : A → M B) w a w' :
  c w = Ok (a, w') → (c ≫= k) w = k a w'.
Proof. intros H. unfold mbind, M_bind. by rewrite H. Qed.

Lemma read_ok r w v : objects w !! r = Some v → read r w = Ok (v, w).
Proof. intros H. unfold read. by rewrite H. Qed.

Lemma get_metrics_ok w : get_metrics w = Ok (_metrics w, w).
Proof. reflexivity. Qed.

Lemma sum_by_fmap {A B} (f : B → Z) (g : A → B) (l : list A) :
  sum_by f (g <$> l) = sum_by (f ∘ g) l.
Proof.
  induction l as [|x l IH]; [done|].
  rewrite fmap_cons. unfold sum_by in *. simpl. by rewrite IH.
Qed.

Lemma derived_record_of c : derived (record_of c).
Proof. reflexivity. Qed.

Lemma Forall_derived l : Forall derived (record_of <$> l).
Proof. apply Forall_fmap, Forall_forall. intros c _. apply derived_record_of. Qed.

(** ** Reset *)

(** C5.  After any operations, [reset()] followed at once by
    [get_metrics()] returns an aggregate whose three totals are 0, whose
    [per_agent] and [per_task] dicts are empty and whose [all_calls] list is
    empty. *)
Theorem reset_yields_empty ops :
  ∃ m w, reset_then_get ops init = Ok (m, w)
    ∧ WorkflowTokenMetrics.total_tokens m = 0
    ∧ WorkflowTokenMetrics.prompt_tokens m = 0
    ∧ WorkflowTokenMetrics.completion_tokens m = 0
    ∧ WorkflowTokenMetrics.per_agent m = ∅
    ∧ WorkflowTokenMetrics.per_task m = ∅
    ∧ WorkflowTokenMetrics.all_calls m = [].
Proof.
  destruct (run_sound ops [] init init_sound) as (w & Hrun & _).
  exists WorkflowTokenMetrics.new. eexists. split; [|done].
  unfold reset_then_get.
  rewrite (bind_ok _ _ _ _ _ Hrun), (bind_ok _ _ _ _ _ (reset_eq w)).
  rewrite (bind_ok _ _ _ _ _ (get_metrics_ok _)). simpl _metrics.
  apply read_ok. simpl. by rewrite lookup_app_r, Nat.sub_diag.
Qed.

(** ** Records *)

(** C6.  After any operations, every call record kept in the aggregate, in
    [all_calls], in the [calls] of any agent entry and in the [calls] of any
    task entry, has [total_tokens = prompt_tokens + completion_tokens];
    the counts are arbitrary integers, 0 included. *)
Theorem derived_field_consistency ops :
  ∃ m w, metrics_after ops init = Ok (m, w)
    ∧ Forall derived (WorkflowTokenMetrics.all_calls m)
    ∧ map_Forall (λ _ e, Forall derived (AgentTokenMetrics.calls e))
        (WorkflowTokenMetrics.per_agent m)
    ∧ map_Forall (λ _ e, Forall derived (TaskTokenMetrics.calls e))
        (WorkflowTokenMetrics.per_task m).
Proof.
  destruct (metrics_after_sound ops) as (m & w & Hrun & Hacc & _).
  exists m, w. split; [done|]. destruct Hacc as [Hcalls _ _ _ Hag Htk].
  split_and!.
  - rewrite Hcalls. apply Forall_derived.
  - intros a e. rewrite Hag. unfold agent_view.
    destruct (filter _ _) as [|c0 l]; [done|]. intros [= <-].
    exact (Forall_derived (c0 :: l)).
  - intros k e. rewrite Htk. unfold task_view.
    destruct (filter _ _) as [|c0 l]; [done|]. intros [= <-].
    exact (Forall_derived (c0 :: l)).
Qed.

(** ** No failure *)

(** C7.  In any state the tracker can reach, [record_llm_call] returns for
    all arguments, empty names and negative counts included, and the
    workflow totals move by exactly the given counts and their sum. *)
Theorem record_llm_call_never_fails ops now a tn mo p c ct :
  ∃ w w' m m',
    run ops init = Ok (tt, w)
    ∧ record_llm_call now a tn mo p c ct w = Ok (tt, w')
    ∧ objects w !! _metrics w = Some m
    ∧ objects w' !! _metrics w' = Some m'
    ∧ WorkflowTokenMetrics.total_tokens m'
      = WorkflowTokenMetrics.total_tokens m + (p + c)
    ∧ WorkflowTokenMetrics.prompt_tokens m'
      = WorkflowTokenMetrics.prompt_tokens m + p
    ∧ WorkflowTokenMetrics.completion_tokens m'
      = WorkflowTokenMetrics.completion_tokens m + c.
Proof.
  destruct (run_sound ops [] init init_sound) as (w & Hrun & m & Hm & _).
  pose proof (record_eq (Call now a tn mo p c ct) w m Hm) as Hrec.
  unfold record in Hrec. simpl in Hrec. rewrite record_into_eq in Hrec.
  cbv zeta in Hrec.
  simpl in Hrec.
  eexists w, _, m, _. split; [done|]. split; [exact Hrec|]. split; [done|].
  split.
  { simpl. apply list_lookup_insert_eq. by eapply lookup_lt_Some. }
  done.
Qed.

(** ** Aggregation *)

Lemma metrics_after_accounts ops m w :
  metrics_after ops init = Ok (m, w) →
  accounts_for (live_calls ops) m ∧ balanced m.
Proof.
  intros H. destruct (metrics_after_sound ops) as (m' & w' & H' & Ha & Hb).
  rewrite H in H'. by injection H' as -> ->.
Qed.

(** The entry of every agent name and of every composite key, in closed
    form. *)
Lemma per_agent_lookup ops m w a :
  metrics_after ops init = Ok (m, w) →
  WorkflowTokenMetrics.per_agent m !! a = agent_view a (live_calls ops).
Proof. intros [Ha _]%metrics_after_accounts. apply Ha. Qed.

Lemma per_task_lookup ops m w k :
  metrics_after ops init = Ok (m, w) →
  WorkflowTokenMetrics.per_task m !! k = task_view k (live_calls ops).
Proof. intros [Ha _]%metrics_after_accounts. apply Ha. Qed.

(** C3.  After any operations, each workflow total equals the sum of that
    field over the entries of [per_agent], over the entries of [per_task]
    and over [all_calls]; and [total_tokens] is the sum of
    [prompt_tokens + completion_tokens] over the calls made since the last
    [reset]. *)
Theorem cross_view_totals ops :
  ∃ m w, metrics_after ops init = Ok (m, w)
    ∧ (WorkflowTokenMetrics.total_tokens m
       = map_sum AgentTokenMetrics.total_tokens (WorkflowTokenMetrics.per_agent m)
       ∧ WorkflowTokenMetrics.total_tokens m
         = map_sum TaskTokenMetrics.total_tokens (WorkflowTokenMetrics.per_task m)
       ∧ WorkflowTokenMetrics.total_tokens m
         = sum_by LLMCallMetrics.total_tokens (WorkflowTokenMetrics.all_calls m))
    ∧ (WorkflowTokenMetrics.prompt_tokens m
       = map_sum AgentTokenMetrics.prompt_tokens (WorkflowTokenMetrics.per_agent m)
       ∧ WorkflowTokenMetrics.prompt_tokens m
         = map_sum TaskTokenMetrics.prompt_tokens (WorkflowTokenMetrics.per_task m)
       ∧ WorkflowTokenMetrics.prompt_tokens m
         = sum_by LLMCallMetrics.prompt_tokens (WorkflowTokenMetrics.all_calls m))
    ∧ (WorkflowTokenMetrics.completion_tokens m
       = map_sum AgentTokenMetrics.completion_tokens
           (WorkflowTokenMetrics.per_agent m)
       ∧ WorkflowTokenMetrics.completion_tokens m
         = map_sum TaskTokenMetrics.completion_tokens
             (WorkflowTokenMetrics.per_task m)
       ∧ WorkflowTokenMetrics.completion_tokens m
         = sum_by LLMCallMetrics.completion_tokens
             (WorkflowTokenMetrics.all_calls m))
    ∧ WorkflowTokenMetrics.total_tokens m
      = sum_by (λ c, arg_prompt_tokens c + arg_completion_tokens c)
          (live_calls ops).
Proof.
  destruct (metrics_after_sound ops) as (m & w & Hrun & Hacc & Hbal).
  exists m, w. split; [done|].
  destruct Hacc as [Hcalls Ht Hp Hc _ _], Hbal as [H1 H2 H3 H4 H5 H6].
  rewrite H1, H2, H3, H4, H5, H6, Hcalls, !sum_by_fmap.
  by split_and!.
Qed.

(** C4.  For every agent name that has an entry in [per_agent] after any
    operations, the entry's [total_tokens], [prompt_tokens] and
    [completion_tokens] are the sums of those counts over the calls since
    the last [reset] that name the agent, its [call_count] is the number of
    those calls, and its [calls] are their records. *)
Theorem per_agent_aggregation ops m w a e :
  metrics_after ops init = Ok (m, w) →
  WorkflowTokenMetrics.per_agent m !! a = Some e →
  let named := filter (λ c, arg_agent_name c = a) (live_calls ops) in
  AgentTokenMetrics.total_tokens e
    = sum_by (λ c, arg_prompt_tokens c + arg_completion_tokens c) named
  ∧ AgentTokenMetrics.prompt_tokens e = sum_by arg_prompt_tokens named
  ∧ AgentTokenMetrics.completion_tokens e = sum_by arg_completion_tokens named
  ∧ AgentTokenMetrics.call_count e = Z.of_nat (length named)
  ∧ AgentTokenMetrics.calls e = record_of <$> named.
Proof.
  intros Hrun He named. rewrite (per_agent_lookup _ _ _ _ Hrun) in He.
  unfold agent_view in He. fold named in He.
  destruct named; [done|]. by injection He as <-.
Qed.

Lemma per_agent_aggregation_witness :
  ∃ m w e,
    metrics_after two_agents init = Ok (m, w)
    ∧ WorkflowTokenMetrics.per_agent m !! "agent_A" = Some e
    ∧ (AgentTokenMetrics.total_tokens e = 15
       ∧ AgentTokenMetrics.prompt_tokens e = 10
       ∧ AgentTokenMetrics.completion_tokens e = 5
       ∧ AgentTokenMetrics.call_count e = 1
       ∧ AgentTokenMetrics.calls e = [record_of call_A]).
Proof.
  eexists _, _, _.
  match goal with
  | |- ?H1 ∧ ?H2 ∧ _ =>
    assert (h1 : H1) by reflexivity;
    assert (h2 : H2) by reflexivity;
    exact (conj h1 (conj h2
             (per_agent_aggregation two_agents _ _ "agent_A" _ h1 h2)))
  end.
Defined.

Lemma task_key_agent_inj tn a a' : task_key tn a = task_key tn a' → a = a'.
Proof.
  unfold task_key. induction tn as [|ch tn IH]; simpl.
  - intros [= H]. exact H.
  - intros [= H]. by apply IH.
Qed.

Lemma filter_iff_on {A} (P1 P2 : A → Prop)
    `{!∀ x, Decision (P1 x), !∀ x, Decision (P2 x)} (l : list A) :
  (∀ x, x ∈ l → P1 x ↔ P2 x) → filter P1 l = filter P2 l.
Proof.
  induction l as [|x l IH]; intros Hon; [done|].
  assert (P1 x ↔ P2 x) as Hx by (apply Hon; left).
  assert (filter P1 l = filter P2 l) as Hl
    by (apply IH; intros; apply Hon; by right).
  destruct (decide (P1 x)).
  - rewrite !filter_cons_True by tauto. by rewrite Hl.
  - rewrite !filter_cons_False by tauto. done.
Qed.

(** C2, as the code has it.  For every call made since the last [reset],
    [per_task] has an entry at the call's composite key
    [task_name + "_" + agent_name]; the entry's three token counts and its
    [call_count] are the sums and the number of the calls filed under that
    key.  Those are the calls naming that exact (task, agent) pair whenever
    no call of another pair has the same key, and two agents never share a
    key for one task name. *)
Theorem per_task_aggregation ops m w c :
  metrics_after ops init = Ok (m, w) →
  c ∈ live_calls ops →
  let tn := arg_task_name c in
  let a := arg_agent_name c in
  let filed := filter (λ c', key_of c' = task_key tn a) (live_calls ops) in
  let named :=
    filter (λ c', arg_task_name c' = tn ∧ arg_agent_name c' = a) (live_calls ops) in
  (∃ e, WorkflowTokenMetrics.per_task m !! task_key tn a = Some e
     ∧ TaskTokenMetrics.total_tokens e
       = sum_by (λ c', arg_prompt_tokens c' + arg_completion_tokens c') filed
     ∧ TaskTokenMetrics.prompt_tokens e = sum_by arg_prompt_tokens filed
     ∧ TaskTokenMetrics.completion_tokens e = sum_by arg_completion_tokens filed
     ∧ TaskTokenMetrics.call_count e = Z.of_nat (length filed))
  ∧ ((∀ c', c' ∈ live_calls ops → key_of c' = task_key tn a →
        arg_task_name c' = tn ∧ arg_agent_name c' = a) →
     filed = named)
  ∧ (∀ a', a' ≠ a → task_key tn a' ≠ task_key tn a).
Proof.
  intros Hrun Hc tn a filed named. split_and!.
  - rewrite (per_task_lookup _ _ _ _ Hrun). unfold task_view. fold filed.
    assert (c ∈ filed) as Hin by (by apply list_elem_of_filter).
    destruct filed as [|c0 l]; [by apply elem_of_nil in Hin|].
    eexists. split; [reflexivity|]. by simpl.
  - intros Hfree. apply filter_iff_on. intros c' Hc'. split.
    + by apply Hfree.
    + intros [Ht Ha]. unfold key_of. by rewrite Ht, Ha.
  - intros a' Hne Hk. by apply Hne, (task_key_agent_inj tn).
Qed.

Lemma per_task_aggregation_witness :
  ∃ m w,
    metrics_after two_agents init = Ok (m, w)
    ∧ call_B ∈ live_calls two_agents
    ∧ (∃ e, WorkflowTokenMetrics.per_task m !! "task_1_agent_B" = Some e
         ∧ TaskTokenMetrics.total_tokens e = 5
         ∧ TaskTokenMetrics.prompt_tokens e = 3
         ∧ TaskTokenMetrics.completion_tokens e = 2
         ∧ TaskTokenMetrics.call_count e = 1).
Proof.
  eexists _, _.
  match goal with
  | |- ?H1 ∧ ?H2 ∧ _ =>
    assert (h1 : H1) by reflexivity;
    assert (h2 : H2) by (right; left);
    exact (conj h1 (conj h2
             (proj1 (per_task_aggregation two_agents _ _ call_B h1 h2))))
  end.
Defined.

(** The run of the specification's example: one entry per agent for the
    shared task name, 15 and 5 tokens, 20 for the workflow. *)
Example two_agents_totals :
  (λ m, (TaskTokenMetrics.total_tokens
           <$> WorkflowTokenMetrics.per_task m !! "task_1_agent_A",
         TaskTokenMetrics.total_tokens
           <$> WorkflowTokenMetrics.per_task m !! "task_1_agent_B",
         WorkflowTokenMetrics.total_tokens m))
    <$> returned (metrics_after two_agents init)
  = Some (Some 15, Some 5, 20).
Proof. reflexivity. Qed.

(** C2 as stated fails: the entry of the pair (task "a", agent "b_c") holds
    6 tokens in 2 calls, while the calls naming that pair sum to 2 tokens
    in 1 call. *)
Lemma per_task_exact_pair_counterexample :
  (λ m, (λ e, (TaskTokenMetrics.total_tokens e, TaskTokenMetrics.call_count e))
          <$> WorkflowTokenMetrics.per_task m !! task_key "a" "b_c")
    <$> returned (metrics_after colliding init)
  = Some (Some (6, 2))
  ∧ sum_by (λ c, arg_prompt_tokens c + arg_completion_tokens c)
      (filter (λ c, arg_task_name c = "a" ∧ arg_agent_name c = "b_c")
         (live_calls colliding)) = 2
  ∧ length (filter (λ c, arg_task_name c = "a" ∧ arg_agent_name c = "b_c")
              (live_calls colliding)) = 1%nat.
Proof. split_and!; reflexivity. Qed.

(** ** Colliding composite keys *)

Lemma per_task_of_two x y k m w :
  key_of x = k → key_of y = k →
  metrics_after [RecordLLMCall x; RecordLLMCall y] init = Ok (m, w) →
  WorkflowTokenMetrics.per_task m =
  {[ k := TaskTokenMetrics.mk (arg_task_name x) (arg_agent_name x)
            (arg_total x + arg_total y)
            (arg_prompt_tokens x + arg_prompt_tokens y)
            (arg_completion_tokens x + arg_completion_tokens y)
            2 [record_of x; record_of y] ]}.
Proof.
  intros Hx Hy Hrun. apply map_eq. intros k'.
  rewrite (per_task_lookup _ _ _ _ Hrun). unfold task_view, live_calls. simpl.
  destruct (decide (k' = k)) as [->|Hne].
  - rewrite lookup_singleton_eq, !filter_cons_True, filter_nil by done.
    unfold sum_by. simpl. do 2 f_equal; lia.
  - rewrite lookup_singleton_ne, !filter_cons_False, filter_nil by congruence.
    done.
Qed.

(** C9.  The calls (task "a", agent "b_c") and (task "a_b", agent "c") name
    different pairs and have the same composite key "a_b_c".  Recorded one
    after the other on a new tracker, whatever their counts, they leave one
    [per_task] entry, which holds the sums of both and a [call_count] of 2,
    under the task and agent names of the call that came first. *)
Theorem composite_key_collision now1 mo1 p1 c1 ct1 now2 mo2 p2 c2 ct2 :
  let x := Call now1 "b_c" "a" mo1 p1 c1 ct1 in
  let y := Call now2 "c" "a_b" mo2 p2 c2 ct2 in
  (arg_task_name x, arg_agent_name x) ≠ (arg_task_name y, arg_agent_name y)
  ∧ task_key (arg_task_name x) (arg_agent_name x) = "a_b_c"
  ∧ task_key (arg_task_name y) (arg_agent_name y) = "a_b_c"
  ∧ (∃ m w,
       metrics_after [RecordLLMCall x; RecordLLMCall y] init = Ok (m, w)
       ∧ WorkflowTokenMetrics.per_task m =
         {[ "a_b_c" := TaskTokenMetrics.mk "a" "b_c"
                         (p1 + c1 + (p2 + c2)) (p1 + p2) (c1 + c2) 2
                         [record_of x; record_of y] ]})
  ∧ (∃ m w,
       metrics_after [RecordLLMCall y; RecordLLMCall x] init = Ok (m, w)
       ∧ WorkflowTokenMetrics.per_task m =
         {[ "a_b_c" := TaskTokenMetrics.mk "a_b" "c"
                         (p2 + c2 + (p1 + c1)) (p2 + p1) (c2 + c1) 2
                         [record_of y; record_of x] ]}).
Proof.
  intros x y. split_and!; [done..| |].
  - destruct (metrics_after_sound [RecordLLMCall x; RecordLLMCall y])
      as (m & w & Hrun & _).
    exists m, w. split; [done|].
    by apply (per_task_of_two x y "a_b_c" m w).
  - destruct (metrics_after_sound [RecordLLMCall y; RecordLLMCall x])
      as (m & w & Hrun & _).
    exists m, w. split; [done|].
    by apply (per_task_of_two y x "a_b_c" m w).
Qed.

(** ** References to the aggregate *)

(** An object the tracker no longer points to is out of reach of every
    operation. *)
Lemma run_frame ops : ∀ w r v,
  is_Some (objects w !! _metrics w) →
  r ≠ _metrics w →
  objects w !! r = Some v →
  ∃ w', run ops w = Ok (tt, w')
    ∧ objects w' !! r = Some v
    ∧ is_Some (objects w' !! _metrics w').
Proof.
  induction ops as [|[c| |] ops IH]; intros w r v [m Hm] Hne Hr.
  - exists w. eauto.
  - destruct (record_call_total c m) as [m' Hrec].
    rewrite run_cons. simpl step. rewrite (record_eq c w m Hm), Hrec.
    apply IH; simpl.
    + exists m'. apply list_lookup_insert_eq. by eapply lookup_lt_Some.
    + done.
    + by rewrite list_lookup_insert_ne.
  - rewrite run_cons. simpl. apply IH; eauto.
  - rewrite run_cons. simpl step. rewrite reset_eq.
    apply lookup_lt_Some in Hr as Hlt.
    apply IH; simpl.
    + exists WorkflowTokenMetrics.new. by rewrite lookup_app_r, Nat.sub_diag.
    + lia.
    + by rewrite lookup_app_l.
Qed.

(** The object the tracker points to takes every call up to the next
    [reset], and none after. *)
Lemma run_live ops : ∀ w v,
  objects w !! _metrics w = Some v →
  ∃ w' v', run ops w = Ok (tt, w')
    ∧ objects w' !! _metrics w = Some v'
    ∧ record_all (calls_until_reset ops) v = Ok v'
    ∧ is_Some (objects w' !! _metrics w').
Proof.
  induction ops as [|[c| |] ops IH]; intros w v Hv.
  - exists w, v. eauto.
  - destruct (record_call_total c v) as [m' Hrec].
    rewrite run_cons. simpl step. rewrite (record_eq c w v Hv), Hrec.
    simpl. rewrite Hrec.
    apply (IH (World (<[_metrics w := m']> (objects w)) (_metrics w)) m').
    simpl. apply list_lookup_insert_eq. by eapply lookup_lt_Some.
  - rewrite run_cons. simpl. by apply IH.
  - rewrite run_cons. simpl step. rewrite reset_eq.
    apply lookup_lt_Some in Hv as Hlt.
    destruct (run_frame ops
                (World (objects w ++ [WorkflowTokenMetrics.new])
                   (length (objects w))) (_metrics w) v)
      as (w' & Hrun & Hr & Hcur).
    + exists WorkflowTokenMetrics.new. simpl.
      by rewrite lookup_app_r, Nat.sub_diag.
    + simpl. lia.
    + simpl. by rewrite lookup_app_l.
    + by exists w', v.
Qed.

Lemma record_all_calls cs : ∀ v v',
  record_all cs v = Ok v' →
  WorkflowTokenMetrics.all_calls v' =
  WorkflowTokenMetrics.all_calls v ++ (record_of <$> cs).
Proof.
  induction cs as [|c cs IH]; intros v v'; simpl.
  - intros [= <-]. by rewrite app_nil_r.
  - rewrite record_into_eq. cbv zeta. intros ->%IH. simpl.
    by rewrite <- app_assoc.
Qed.

(** What the holder of a reference obtained from [get_metrics] reads
    before and after further operations. *)
Lemma observe_spec before after :
  ∃ v1 v2 w,
    observe before after init = Ok ((v1, v2), w)
    ∧ record_all (calls_until_reset after) v1 = Ok v2.
Proof.
  destruct (run_sound before [] init init_sound) as (w1 & Hrun1 & v1 & Hv1 & _).
  destruct (run_live after w1 v1 Hv1) as (w2 & v2 & Hrun2 & Hv2 & Hrec & _).
  exists v1, v2, w2. split; [|done].
  unfold observe.
  rewrite (bind_ok _ _ _ _ _ Hrun1), (bind_ok _ _ _ _ _ (get_metrics_ok _)).
  rewrite (bind_ok _ _ _ _ _ (read_ok _ _ _ Hv1)).
  rewrite (bind_ok _ _ _ _ _ Hrun2).
  by rewrite (bind_ok _ _ _ _ _ (read_ok _ _ _ Hv2)).
Qed.

(** C1 as stated fails: the object [get_metrics] returned on a new tracker
    shows 0 tokens and no call when read at once, and 15 tokens and one call
    when read again after one [record_llm_call]. *)
Lemma snapshot_isolation_counterexample :
  (λ vs, (WorkflowTokenMetrics.total_tokens vs.1,
          length (WorkflowTokenMetrics.all_calls vs.1),
          WorkflowTokenMetrics.total_tokens vs.2,
          length (WorkflowTokenMetrics.all_calls vs.2)))
    <$> returned (observe [] [RecordLLMCall call_A] init)
  = Some (0, 0%nat, 15, 1%nat).
Proof. reflexivity. Qed.

(** C1, as the code has it.  [get_metrics] returns the live aggregate
    itself.  Read again after any further operations, the returned object
    is what it was at the time of the call with exactly the
    [record_llm_call]s made before the next [reset] applied to it, in
    order: those calls show in it, and nothing from that [reset] on does. *)
Theorem snapshot_follows_live_aggregate before after :
  ∃ v1 v2 w,
    observe before after init = Ok ((v1, v2), w)
    ∧ record_all (calls_until_reset after) v1 = Ok v2
    ∧ WorkflowTokenMetrics.all_calls v2 =
      WorkflowTokenMetrics.all_calls v1
      ++ (record_of <$> calls_until_reset after).
Proof.
  destruct (observe_spec before after) as (v1 & v2 & w & Hobs & Hrec).
  exists v1, v2, w. split_and!; [done..|]. by apply record_all_calls.
Qed.

Lemma record_keeps_cur c w w' :
  record c w = Ok (tt, w') → _metrics w' = _metrics w.
Proof.
  destruct (objects w !! _metrics w) as [m|] eqn:Hm.
  - rewrite (record_eq c w m Hm).
    destruct (record_call_total c m) as [m' ->].
    by intros [= <-].
  - unfold record, record_llm_call, get_self_metrics, read, mbind, M_bind.
    simpl. by rewrite Hm.
Qed.

Lemma run_records_cur cs : ∀ w w',
  run (RecordLLMCall <$> cs) w = Ok (tt, w') → _metrics w' = _metrics w.
Proof.
  induction cs as [|c cs IH]; intros w w'.
  - by intros [= <-].
  - rewrite fmap_cons, run_cons. simpl step.
    destruct (record c w) as [[[] w1]|] eqn:Hrec; [|done].
    intros ->%IH. by apply (record_keeps_cur c).
Qed.

(** C10.  A reference obtained from [get_metrics] before a [reset] reads
    the same after any operations that follow the [reset] as right after
    it.  A reference obtained since the last [reset] reads differently
    after each further [record_llm_call]. *)
Theorem reset_freezes_snapshot before between after mid c :
  (∃ v w, observe_across_reset before between after init = Ok ((v, v), w))
  ∧ (∃ v1 v2 w,
       observe_next_call before mid c init = Ok ((v1, v2), w) ∧ v1 ≠ v2).
Proof.
  destruct (run_sound before [] init init_sound) as (w1 & Hrun1 & v0 & Hv0 & _).
  split.
  - destruct (run_live between w1 v0 Hv0) as (w2 & v & Hrun2 & Hv & _).
    apply lookup_lt_Some in Hv as Hlt.
    set (w2' := World (objects w2 ++ [WorkflowTokenMetrics.new])
                  (length (objects w2))).
    assert (objects w2' !! _metrics w1 = Some v) as Hv'
      by (simpl; by rewrite lookup_app_l).
    destruct (run_frame after w2' (_metrics w1) v)
      as (w3 & Hrun3 & Hv3 & _); simpl; [|lia|done|].
    { exists WorkflowTokenMetrics.new. by rewrite lookup_app_r, Nat.sub_diag. }
    exists v, w3. unfold observe_across_reset.
    rewrite (bind_ok _ _ _ _ _ Hrun1), (bind_ok _ _ _ _ _ (get_metrics_ok _)).
    rewrite (bind_ok _ _ _ _ _ Hrun2), (bind_ok _ _ _ _ _ (reset_eq _)).
    fold w2'. rewrite (bind_ok _ _ _ _ _ (read_ok _ _ _ Hv')).
    rewrite (bind_ok _ _ _ _ _ Hrun3).
    by rewrite (bind_ok _ _ _ _ _ (read_ok _ _ _ Hv3)).
  - destruct (run_live (RecordLLMCall <$> mid) w1 v0 Hv0)
      as (w2 & v1 & Hrun2 & Hv1 & _).
    pose proof (run_records_cur _ _ _ Hrun2) as Hcur.
    pose proof Hv1 as Hv1'. rewrite <- Hcur in Hv1'.
    destruct (record_call_total c v1) as [v2 Hinto].
    pose proof (record_eq c w2 v1 Hv1') as Hrec. rewrite Hinto in Hrec.
    set (w3 := World (<[_metrics w2 := v2]> (objects w2)) (_metrics w2)) in Hrec.
    assert (objects w3 !! _metrics w1 = Some v2) as Hv2.
    { simpl. rewrite Hcur. apply list_lookup_insert_eq.
      rewrite <- Hcur. by eapply lookup_lt_Some. }
    exists v1, v2, w3. split.
    + unfold observe_next_call.
      rewrite (bind_ok _ _ _ _ _ Hrun1), (bind_ok _ _ _ _ _ (get_metrics_ok _)).
      rewrite (bind_ok _ _ _ _ _ Hrun2).
      rewrite (bind_ok _ _ _ _ _ (read_ok _ _ _ Hv1)).
      rewrite (bind_ok _ _ _ _ _ Hrec).
      by rewrite (bind_ok _ _ _ _ _ (read_ok _ _ _ Hv2)).
    + intros ->.
      assert (record_all [c] v2 = Ok v2) as Hall by (simpl; by rewrite Hinto).
      apply record_all_calls, (f_equal length) in Hall.
      rewrite length_app in Hall. simpl in Hall. lia.
Qed.
(** ** Order of the calls *)

Lemma live_calls_from_records cs : ∀ acc,
  live_calls_from acc (RecordLLMCall <$> cs) = acc ++ cs.
Proof.
  induction cs as [|c cs IH]; intros acc; simpl.
  - by rewrite app_nil_r.
  - rewrite IH. by rewrite <- app_assoc.
Qed.

Lemma sum_by_perm {A} (f : A → Z) (l l' : list A) :
  l ≡ₚ l' → sum_by f l = sum_by f l'.
Proof.
  unfold sum_by. induction 1; simpl; lia.
Qed.

(** X15.  The workflow totals do not depend on the order in which the same
    calls are taken one after the other. *)
Lemma totals_order_independent cs cs' :
  cs ≡ₚ cs' →
  ∃ m w m' w',
    metrics_after (RecordLLMCall <$> cs) init = Ok (m, w)
    ∧ metrics_after (RecordLLMCall <$> cs') init = Ok (m', w')
    ∧ WorkflowTokenMetrics.total_tokens m = WorkflowTokenMetrics.total_tokens m'
    ∧ WorkflowTokenMetrics.prompt_tokens m = WorkflowTokenMetrics.prompt_tokens m'
    ∧ WorkflowTokenMetrics.completion_tokens m
      = WorkflowTokenMetrics.completion_tokens m'.
Proof.
  intros Hp.
  destruct (metrics_after_sound (RecordLLMCall <$> cs))
    as (m & w & Hrun & [_ Ht Hpr Hc _ _] & _).
  destruct (metrics_after_sound (RecordLLMCall <$> cs'))
    as (m' & w' & Hrun' & [_ Ht' Hpr' Hc' _ _] & _).
  exists m, w, m', w'. split_and!; [done..| | |].
  - rewrite Ht, Ht'. unfold live_calls. rewrite !live_calls_from_records.
    by apply sum_by_perm.
  - rewrite Hpr, Hpr'. unfold live_calls. rewrite !live_calls_from_records.
    by apply sum_by_perm.
  - rewrite Hc, Hc'. unfold live_calls. rewrite !live_calls_from_records.
    by apply sum_by_perm.
Qed.

(** A call with empty names and negative counts is taken like any other. *)
Example record_empty_names_negative_counts :
  (λ m, (WorkflowTokenMetrics.total_tokens m,
         WorkflowTokenMetrics.prompt_tokens m,
         WorkflowTokenMetrics.completion_tokens m,
         AgentTokenMetrics.total_tokens <$> WorkflowTokenMetrics.per_agent m !! "",
         TaskTokenMetrics.total_tokens <$> WorkflowTokenMetrics.per_task m !! "_"))
    <$> returned (metrics_after [RecordLLMCall (Call 0 "" "" "" (-5) (-7) "")] init)
  = Some (-12, -5, -7, Some (-12), Some (-12)).
Proof. reflexivity. Qed.

(** ** The entries of the two dicts *)

Lemma sum_by_plus {A} (f g : A → Z) (l : list A) :
  sum_by (λ x, f x + g x) l = sum_by f l + sum_by g l.
Proof. unfold sum_by. induction l as [|x l IH]; simpl; lia. Qed.

Lemma list_filter_fmap' {A B} (f : A → B) (P : B → Prop)
    `{!∀ y, Decision (P y)} (l : list A) :
  filter P (f <$> l) = f <$> filter (λ x, P (f x)) l.
Proof.
  induction l as [|x l IH]; [done|].
  rewrite fmap_cons, !filter_cons. simpl.
  destruct (decide (P (f x))); by rewrite IH.
Qed.

Lemma Forall_filter_holds {A} (P : A → Prop) `{!∀ x, Decision (P x)}
    (l : list A) : Forall P (filter P l).
Proof. apply Forall_forall. by intros x [HP _]%list_elem_of_filter. Qed.

Lemma agent_view_Some a log e :
  agent_view a log = Some e →
  filter (λ c, arg_agent_name c = a) log ≠ []
  ∧ e = AgentTokenMetrics.mk a
          (sum_by arg_total (filter (λ c, arg_agent_name c = a) log))
          (sum_by arg_prompt_tokens (filter (λ c, arg_agent_name c = a) log))
          (sum_by arg_completion_tokens
             (filter (λ c, arg_agent_name c = a) log))
          (Z.of_nat (length (filter (λ c, arg_agent_name c = a) log)))
          (record_of <$> filter (λ c, arg_agent_name c = a) log).
Proof.
  unfold agent_view. destruct (filter _ log) as [|c0 l]; [done|].
  by intros [= <-].
Qed.

Lemma task_view_Some k log e :
  task_view k log = Some e →
  ∃ c0, head (filter (λ c, key_of c = k) log) = Some c0
    ∧ e = TaskTokenMetrics.mk (arg_task_name c0) (arg_agent_name c0)
            (sum_by arg_total (filter (λ c, key_of c = k) log))
            (sum_by arg_prompt_tokens (filter (λ c, key_of c = k) log))
            (sum_by arg_completion_tokens (filter (λ c, key_of c = k) log))
            (Z.of_nat (length (filter (λ c, key_of c = k) log)))
            (record_of <$> filter (λ c, key_of c = k) log).
Proof.
  unfold task_view. destruct (filter _ log) as [|c0 l]; [done|].
  intros [= <-]. by exists c0.
Qed.

Lemma length_pos_Z {A} (l : list A) : l ≠ [] → 1 ≤ Z.of_nat (length l).
Proof. destruct l; [done|]. rewrite length_cons. lia. Qed.

(** X1.  After any operations, every entry of [per_agent] carries the name
    it is filed under, has at least one call, and is consistent with its
    own history: [total_tokens = prompt_tokens + completion_tokens],
    [call_count] is the length of [calls], each of the three counts is the
    sum of that field over [calls], and every record in [calls] names the
    agent. *)
Theorem agent_entries_invariant ops :
  ∃ m w, metrics_after ops init = Ok (m, w)
    ∧ map_Forall (λ a e,
        AgentTokenMetrics.agent_name e = a
        ∧ 1 ≤ AgentTokenMetrics.call_count e
        ∧ AgentTokenMetrics.call_count e
          = Z.of_nat (length (AgentTokenMetrics.calls e))
        ∧ AgentTokenMetrics.total_tokens e
          = AgentTokenMetrics.prompt_tokens e
            + AgentTokenMetrics.completion_tokens e
        ∧ AgentTokenMetrics.total_tokens e
          = sum_by LLMCallMetrics.total_tokens (AgentTokenMetrics.calls e)
        ∧ AgentTokenMetrics.prompt_tokens e
          = sum_by LLMCallMetrics.prompt_tokens (AgentTokenMetrics.calls e)
        ∧ AgentTokenMetrics.completion_tokens e
          = sum_by LLMCallMetrics.completion_tokens (AgentTokenMetrics.calls e)
        ∧ Forall (λ r, LLMCallMetrics.agent_name r = a)
            (AgentTokenMetrics.calls e))
        (WorkflowTokenMetrics.per_agent m).
Proof.
  destruct (metrics_after_sound ops) as (m & w & Hrun & Hacc & _).
  exists m, w. split; [done|]. intros a e. rewrite (acc_agent _ _ Hacc).
  intros [Hne ->]%agent_view_Some. simpl.
  rewrite length_fmap, !sum_by_fmap. split_and!; try done.
  - by apply length_pos_Z.
  - apply sum_by_plus.
  - apply Forall_fmap, Forall_filter_holds.
Qed.

(** X2.  After any operations, every entry of [per_task] is filed under
    the composite key of the names it stores, has at least one call, and is
    consistent with its own history in the same way; every record in its
    [calls] has that composite key. *)
Theorem task_entries_invariant ops :
  ∃ m w, metrics_after ops init = Ok (m, w)
    ∧ map_Forall (λ k e,
        task_key (TaskTokenMetrics.task_name e) (TaskTokenMetrics.agent_name e)
        = k
        ∧ 1 ≤ TaskTokenMetrics.call_count e
        ∧ TaskTokenMetrics.call_count e
          = Z.of_nat (length (TaskTokenMetrics.calls e))
        ∧ TaskTokenMetrics.total_tokens e
          = TaskTokenMetrics.prompt_tokens e
            + TaskTokenMetrics.completion_tokens e
        ∧ TaskTokenMetrics.total_tokens e
          = sum_by LLMCallMetrics.total_tokens (TaskTokenMetrics.calls e)
        ∧ TaskTokenMetrics.prompt_tokens e
          = sum_by LLMCallMetrics.prompt_tokens (TaskTokenMetrics.calls e)
        ∧ TaskTokenMetrics.completion_tokens e
          = sum_by LLMCallMetrics.completion_tokens (TaskTokenMetrics.calls e)
        ∧ Forall (λ r, record_key r = k) (TaskTokenMetrics.calls e))
        (WorkflowTokenMetrics.per_task m).
Proof.
  destruct (metrics_after_sound ops) as (m & w & Hrun & Hacc & _).
  exists m, w. split; [done|]. intros k e. rewrite (acc_task _ _ Hacc).
  intros (c0 & Hhd & ->)%task_view_Some. simpl.
  rewrite length_fmap, !sum_by_fmap.
  pose proof (Forall_filter_holds (λ c, key_of c = k) (live_calls ops)) as Hall.
  destruct (filter _ (live_calls ops)) as [|c1 l]; [done|].
  injection Hhd as ->.
  split_and!; try done.
  - by apply Forall_inv in Hall.
  - rewrite length_cons. lia.
  - apply sum_by_plus.
  - by apply Forall_fmap.
Qed.

(** X3.  After any operations, the [calls] of an agent entry are the
    records of [all_calls] that name the agent, and the [calls] of a task
    entry are the records of [all_calls] with the entry's composite key, in
    the order of [all_calls]. *)
Theorem entry_calls_filter_all_calls ops :
  ∃ m w, metrics_after ops init = Ok (m, w)
    ∧ map_Forall (λ a e,
        AgentTokenMetrics.calls e
        = filter (λ r, LLMCallMetrics.agent_name r = a)
            (WorkflowTokenMetrics.all_calls m))
        (WorkflowTokenMetrics.per_agent m)
    ∧ map_Forall (λ k e,
        TaskTokenMetrics.calls e
        = filter (λ r, record_key r = k) (WorkflowTokenMetrics.all_calls m))
        (WorkflowTokenMetrics.per_task m).
Proof.
  destruct (metrics_after_sound ops) as (m & w & Hrun & Hacc & _).
  exists m, w. split; [done|]. rewrite (acc_calls _ _ Hacc). split.
  - intros a e. rewrite (acc_agent _ _ Hacc).
    intros [_ ->]%agent_view_Some. by rewrite list_filter_fmap'.
  - intros k e. rewrite (acc_task _ _ Hacc).
    intros (c0 & _ & ->)%task_view_Some. by rewrite list_filter_fmap'.
Qed.

Lemma filter_nonempty {A} (P : A → Prop) `{!∀ x, Decision (P x)} (l : list A) :
  filter P l ≠ [] ↔ ∃ x, P x ∧ x ∈ l.
Proof.
  split.
  - destruct (filter P l) as [|x l'] eqn:E; [done|]. intros _.
    exists x. rewrite <- list_elem_of_filter, E. left.
  - intros (x & HP & Hx) E.
    assert (x ∈ filter P l) as Hin by (by apply list_elem_of_filter).
    rewrite E in Hin. by apply elem_of_nil in Hin.
Qed.

Lemma agent_view_is_Some a log :
  is_Some (agent_view a log) ↔ ∃ c, arg_agent_name c = a ∧ c ∈ log.
Proof.
  split.
  - intros [e [Hne _]%agent_view_Some]. by apply filter_nonempty in Hne.
  - intros Hne. apply (filter_nonempty (λ c, arg_agent_name c = a)) in Hne.
    unfold agent_view. destruct (filter _ log); [done|eauto].
Qed.

Lemma task_view_is_Some k log :
  is_Some (task_view k log) ↔ ∃ c, key_of c = k ∧ c ∈ log.
Proof.
  split.
  - intros [e (c0 & Hhd & _)%task_view_Some].
    apply (filter_nonempty (λ c, key_of c = k)).
    intros E. by rewrite E in Hhd.
  - intros Hne. apply (filter_nonempty (λ c, key_of c = k)) in Hne.
    unfold task_view. destruct (filter _ log); [done|eauto].
Qed.

(** X4.  After any operations, the keys of [per_agent] are exactly the
    agent names of the calls made since the last [reset], and the keys of
    [per_task] are exactly the composite keys of those calls: an entry is
    created by the first call that needs it and no call removes one. *)
Theorem dict_keys ops :
  ∃ m w, metrics_after ops init = Ok (m, w)
    ∧ dom (WorkflowTokenMetrics.per_agent m)
      = list_to_set (arg_agent_name <$> live_calls ops)
    ∧ dom (WorkflowTokenMetrics.per_task m)
      = list_to_set ((λ c, task_key (arg_task_name c) (arg_agent_name c))
                       <$> live_calls ops).
Proof.
  destruct (metrics_after_sound ops) as (m & w & Hrun & Hacc & _).
  exists m, w. split; [done|]. split; apply set_eq; intros x.
  - rewrite elem_of_dom, (acc_agent _ _ Hacc), agent_view_is_Some.
    rewrite elem_of_list_to_set, list_elem_of_fmap.
    split; intros (c & ? & ?); exists c; by split.
  - rewrite elem_of_dom, (acc_task _ _ Hacc), task_view_is_Some.
    rewrite elem_of_list_to_set, list_elem_of_fmap.
    split; intros (c & ? & ?); exists c; by split.
Qed.

(** X5.  After any operations, [all_calls] holds one record for each call
    made since the last [reset], in the order of the calls; a record carries
    the instant, names, model, counts and call type of its call unchanged. *)
Theorem all_calls_in_arrival_order ops :
  ∃ m w, metrics_after ops init = Ok (m, w)
    ∧ WorkflowTokenMetrics.all_calls m
      = (λ c, LLMCallMetrics.mk (arg_now c) (arg_agent_name c)
                (arg_task_name c) (arg_model c) (arg_prompt_tokens c)
                (arg_completion_tokens c)
                (arg_prompt_tokens c + arg_completion_tokens c)
                (arg_call_type c))
        <$> live_calls ops.
Proof.
  destruct (metrics_after_sound ops) as (m & w & Hrun & Hacc & _).
  exists m, w. split; [done|]. apply (acc_calls _ _ Hacc).
Qed.

(** X6.  After any operations, the workflow's [total_tokens] is the sum of
    its [prompt_tokens] and [completion_tokens]. *)
Theorem workflow_total_is_prompt_plus_completion ops :
  ∃ m w, metrics_after ops init = Ok (m, w)
    ∧ WorkflowTokenMetrics.total_tokens m
      = WorkflowTokenMetrics.prompt_tokens m
        + WorkflowTokenMetrics.completion_tokens m.
Proof.
  destruct (metrics_after_sound ops) as (m & w & Hrun & Hacc & _).
  exists m, w. split; [done|].
  rewrite (acc_total _ _ Hacc), (acc_prompt _ _ Hacc), (acc_completion _ _ Hacc).
  apply sum_by_plus.
Qed.

Lemma accounts_unique log m m' :
  accounts_for log m → accounts_for log m' → m = m'.
Proof.
  intros [H1 H2 H3 H4 H5 H6] [H1' H2' H3' H4' H5' H6'].
  destruct m as [t p c pa pt ac], m' as [t' p' c' pa' pt' ac'].
  simpl in *. f_equal; try congruence.
  - apply map_eq. intros a. by rewrite H5, H5'.
  - apply map_eq. intros k. by rewrite H6, H6'.
Qed.

(** X7.  A [reset] erases the past completely: the aggregate [get_metrics]
    returns after any operations is equal, field by field, to the one a
    new tracker returns after just the calls made since the last
    [reset]. *)
Theorem history_independence ops :
  ∃ m w w',
    metrics_after ops init = Ok (m, w)
    ∧ metrics_after (RecordLLMCall <$> live_calls ops) init = Ok (m, w').
Proof.
  destruct (metrics_after_sound ops) as (m & w & Hrun & Hacc & _).
  destruct (metrics_after_sound (RecordLLMCall <$> live_calls ops))
    as (m' & w' & Hrun' & Hacc' & _).
  unfold live_calls in Hacc' at 1. rewrite live_calls_from_records in Hacc'.
  simpl in Hacc'. assert (m = m') as -> by (by eapply accounts_unique).
  by exists m', w, w'.
Qed.

(** ** Call counts *)

Section object_invariant.
Variable P : WorkflowTokenMetrics.t → Prop.
Hypothesis P_new : P WorkflowTokenMetrics.new.
Hypothesis P_record : ∀ c m m', P m → record_call_into c m = Ok m' → P m'.

(** A property of the new aggregate that every call keeps holds of the
    current aggregate after any operations. *)
Lemma run_invariant ops : ∀ w,
  (∃ m, objects w !! _metrics w = Some m ∧ P m) →
  ∃ w' m', run ops w = Ok (tt, w')
    ∧ objects w' !! _metrics w' = Some m' ∧ P m'.
Proof using P_new P_record.
  induction ops as [|[c| |] ops IH]; intros w (m & Hm & HP).
  - by exists w, m.
  - destruct (record_call_total c m) as [m' Hrec].
    rewrite run_cons. simpl step. rewrite (record_eq c w m Hm), Hrec.
    apply IH. exists m'. simpl. split; [|by eapply P_record].
    apply list_lookup_insert_eq. by eapply lookup_lt_Some.
  - rewrite run_cons. simpl. apply IH. eauto.
  - rewrite run_cons. simpl step. rewrite reset_eq. apply IH.
    exists WorkflowTokenMetrics.new. simpl. split; [|done].
    by rewrite lookup_app_r, Nat.sub_diag.
Qed.

Lemma metrics_after_invariant ops :
  ∃ m w, metrics_after ops init = Ok (m, w) ∧ P m.
Proof using P_new P_record.
  destruct (run_invariant ops init) as (w & m & Hrun & Hm & HP).
  { exists WorkflowTokenMetrics.new. by split. }
  exists m, w. split; [|done]. by apply metrics_after_eq.
Qed.
End object_invariant.

Lemma new_counted : counted WorkflowTokenMetrics.new.
Proof. split; apply map_sum_empty. Qed.

Lemma record_counted c m m' :
  counted m → record_call_into c m = Ok m' → counted m'.
Proof.
  intros [H1 H2]. rewrite record_into_eq. cbv zeta. intros [= <-].
  split; simpl; rewrite length_app; simpl.
  - rewrite (map_sum_insert _ _ _ _ (AgentTokenMetrics.new (arg_agent_name c)))
      by done.
    simpl. lia.
  - rewrite (map_sum_insert _ _ _ _
               (TaskTokenMetrics.new (arg_task_name c) (arg_agent_name c)))
      by done.
    simpl. lia.
Qed.

(** X8.  After any operations, the [call_count]s of the [per_agent] entries
    add up to the number of records in [all_calls], and so do the
    [call_count]s of the [per_task] entries: each call is counted once in
    each dict. *)
Theorem call_counts_add_up ops :
  ∃ m w, metrics_after ops init = Ok (m, w)
    ∧ map_sum AgentTokenMetrics.call_count (WorkflowTokenMetrics.per_agent m)
      = Z.of_nat (length (WorkflowTokenMetrics.all_calls m))
    ∧ map_sum TaskTokenMetrics.call_count (WorkflowTokenMetrics.per_task m)
      = Z.of_nat (length (WorkflowTokenMetrics.all_calls m)).
Proof.
  destruct (metrics_after_invariant counted new_counted record_counted ops)
    as (m & w & Hrun & [H1 H2]).
  by exists m, w.
Qed.

(** ** The reference [get_metrics] returns *)

Lemma reset_in_or_not (ops : list op) : Reset ∈ ops ∨ Reset ∉ ops.
Proof.
  induction ops as [|o ops [IH|IH]].
  - right. apply not_elem_of_nil.
  - left. by right.
  - destruct o as [c| |].
    + right. intros [[=]|?]%elem_of_cons. done.
    + right. intros [[=]|?]%elem_of_cons. done.
    + left. left.
Qed.

(** The tracker's reference moves only at a [reset], and then to an
    address that no object had before. *)
Lemma run_cur ops : ∀ w,
  is_Some (objects w !! _metrics w) →
  ∃ w', run ops w = Ok (tt, w')
    ∧ is_Some (objects w' !! _metrics w')
    ∧ (length (objects w) ≤ length (objects w'))%nat
    ∧ (Reset ∉ ops → _metrics w' = _metrics w)
    ∧ (Reset ∈ ops → (length (objects w) ≤ _metrics w')%nat).
Proof.
  induction ops as [|[c| |] ops IH]; intros w [m Hm].
  - exists w. split_and!; eauto. by intros ?%elem_of_nil.
  - destruct (record_call_total c m) as [m' Hrec].
    rewrite run_cons. simpl step. rewrite (record_eq c w m Hm), Hrec.
    destruct (IH (World (<[_metrics w := m']> (objects w)) (_metrics w)))
      as (w' & Hrun & Hsome & Hlen & Hno & Hyes).
    { exists m'. simpl. apply list_lookup_insert_eq. by eapply lookup_lt_Some. }
    simpl in *. rewrite length_insert in *. exists w'. split_and!; try done.
    + intros Hnot. apply Hno. intros ?. apply Hnot. by right.
    + intros [[=]|?]%elem_of_cons. by apply Hyes.
  - rewrite run_cons. simpl.
    destruct (IH w) as (w' & Hrun & Hsome & Hlen & Hno & Hyes); [by exists m|].
    exists w'. split_and!; try done.
    + intros Hnot. apply Hno. intros ?. apply Hnot. by right.
    + intros [[=]|?]%elem_of_cons. by apply Hyes.
  - rewrite run_cons. simpl step. rewrite reset_eq.
    destruct (IH (World (objects w ++ [WorkflowTokenMetrics.new])
                    (length (objects w))))
      as (w' & Hrun & Hsome & Hlen & Hno & Hyes).
    { exists WorkflowTokenMetrics.new. simpl.
      by rewrite lookup_app_r, Nat.sub_diag. }
    simpl in *. rewrite length_app in *. simpl in *.
    exists w'. split_and!; try done.
    + lia.
    + intros Hnot. exfalso. apply Hnot. left.
    + intros _. destruct (reset_in_or_not ops) as [Hin|Hnot].
      * apply Hyes in Hin. lia.
      * apply Hno in Hnot. lia.
Qed.

(** X9.  Two calls of [get_metrics] return the same reference exactly when
    no [reset] runs between them: [record_llm_call] and [get_metrics] never
    rebind the aggregate, and a [reset] binds one that no earlier call of
    [get_metrics] has returned. *)
Theorem get_metrics_same_reference before mid :
  ∃ r1 r2 w, get_twice before mid init = Ok ((r1, r2), w)
    ∧ (r1 = r2 ↔ Reset ∉ mid).
Proof.
  destruct (run_sound before [] init init_sound) as (w1 & Hrun1 & m1 & Hm1 & _).
  destruct (run_cur mid w1) as (w2 & Hrun2 & _ & _ & Hno & Hyes); [by exists m1|].
  exists (_metrics w1), (_metrics w2), w2. split.
  - unfold get_twice.
    rewrite (bind_ok _ _ _ _ _ Hrun1), (bind_ok _ _ _ _ _ (get_metrics_ok _)).
    by rewrite (bind_ok _ _ _ _ _ Hrun2), (bind_ok _ _ _ _ _ (get_metrics_ok _)).
  - apply lookup_lt_Some in Hm1. split.
    + intros Heq Hin. apply Hyes in Hin. lia.
    + intros Hnot. symmetry. by apply Hno.
Qed.

(** ** What one call writes *)

(** X10.  In any state the tracker can reach, a [record_llm_call] writes
    the current aggregate and no other object, and does not rebind
    [_metrics]; in the aggregate it appends one record to [all_calls],
    and leaves every [per_agent] entry but the one of its agent and every
    [per_task] entry but the one of its composite key as they were. *)
Theorem record_writes_one_entry ops now a tn mo p c ct :
  ∃ w w' m m',
    run ops init = Ok (tt, w)
    ∧ record_llm_call now a tn mo p c ct w = Ok (tt, w')
    ∧ objects w !! _metrics w = Some m
    ∧ _metrics w' = _metrics w
    ∧ objects w' = <[_metrics w := m']> (objects w)
    ∧ WorkflowTokenMetrics.all_calls m'
      = WorkflowTokenMetrics.all_calls m
        ++ [LLMCallMetrics.mk now a tn mo p c (p + c) ct]
    ∧ delete a (WorkflowTokenMetrics.per_agent m')
      = delete a (WorkflowTokenMetrics.per_agent m)
    ∧ delete (task_key tn a) (WorkflowTokenMetrics.per_task m')
      = delete (task_key tn a) (WorkflowTokenMetrics.per_task m).
Proof.
  destruct (run_sound ops [] init init_sound) as (w & Hrun & m & Hm & _).
  pose proof (record_eq (Call now a tn mo p c ct) w m Hm) as Hrec.
  unfold record in Hrec. simpl in Hrec. rewrite record_into_eq in Hrec.
  cbv zeta in Hrec. simpl in Hrec.
  eexists w, _, m, _. split; [done|]. split; [exact Hrec|]. split; [done|].
  simpl. split_and!; [done|reflexivity|done|..]; apply delete_insert_eq.
Qed.

(** ** Composite keys of plain task names *)

(** X11.  The composite key tells two (task, agent) pairs apart whenever
    neither task name contains an underscore. *)
Theorem task_key_inj tn a tn' a' :
  underscore_free tn = true →
  underscore_free tn' = true →
  task_key tn a = task_key tn' a' →
  tn = tn' ∧ a = a'.
Proof.
  unfold task_key. revert tn'.
  induction tn as [|ch tn IH]; intros [|ch' tn']; simpl; intros H1 H2 E.
  - injection E as E. split; [done|exact E].
  - injection E as Hch _. rewrite <- Hch in H2.
    by rewrite Ascii.eqb_refl in H2.
  - injection E as Hch _. rewrite Hch in H1.
    by rewrite Ascii.eqb_refl in H1.
  - injection E as Hch E. rewrite Hch in *.
    destruct (Ascii.eqb ch' "_"); [done|].
    destruct (IH tn' H1 H2 E) as [Ht Ha]. by rewrite Ht, Ha.
Qed.

Lemma task_key_inj_witness :
  underscore_free "plan" = true
  ∧ underscore_free "plan" = true
  ∧ task_key "plan" "agent_A" = task_key "plan" "agent_A"
  ∧ ("plan" = "plan" ∧ "agent_A" = "agent_A").
Proof.
  refine (conj eq_refl (conj eq_refl (conj eq_refl
            (task_key_inj "plan" "agent_A" "plan" "agent_A"
               eq_refl eq_refl eq_refl)))).
Defined.

(** X12.  When no call made since the last [reset] has an underscore in
    its task name, the [per_task] entry at a call's composite key stores
    that call's task and agent names, and its counts, [call_count] and
    [calls] are those of exactly the calls naming that (task, agent)
    pair. *)
Theorem per_task_exact_pair ops m w c :
  metrics_after ops init = Ok (m, w) →
  c ∈ live_calls ops →
  Forall (λ c', underscore_free (arg_task_name c') = true) (live_calls ops) →
  let named :=
    filter (λ c', arg_task_name c' = arg_task_name c
                  ∧ arg_agent_name c' = arg_agent_name c) (live_calls ops) in
  ∃ e,
    WorkflowTokenMetrics.per_task m
      !! task_key (arg_task_name c) (arg_agent_name c) = Some e
    ∧ TaskTokenMetrics.task_name e = arg_task_name c
    ∧ TaskTokenMetrics.agent_name e = arg_agent_name c
    ∧ TaskTokenMetrics.total_tokens e
      = sum_by (λ c', arg_prompt_tokens c' + arg_completion_tokens c') named
    ∧ TaskTokenMetrics.prompt_tokens e = sum_by arg_prompt_tokens named
    ∧ TaskTokenMetrics.completion_tokens e = sum_by arg_completion_tokens named
    ∧ TaskTokenMetrics.call_count e = Z.of_nat (length named)
    ∧ TaskTokenMetrics.calls e = record_of <$> named.
Proof.
  intros Hrun Hc Hfree named.
  assert (∀ c', c' ∈ live_calls ops → key_of c' = key_of c →
            arg_task_name c' = arg_task_name c
            ∧ arg_agent_name c' = arg_agent_name c) as Hinj.
  { intros c' Hc' Hk. rewrite Forall_forall in Hfree.
    apply task_key_inj; [by apply Hfree..|done]. }
  assert (filter (λ c', key_of c' = key_of c) (live_calls ops) = named) as Hf.
  { apply filter_iff_on. intros c' Hc'. split; [by apply Hinj|].
    intros [Ht Ha]. unfold key_of. by rewrite Ht, Ha. }
  assert (is_Some (task_view (key_of c) (live_calls ops))) as [e He].
  { apply task_view_is_Some. by exists c. }
  exists e. split; [by rewrite (per_task_lookup _ _ _ _ Hrun)|].
  apply task_view_Some in He as (c0 & Hhd & ->). rewrite Hf in *. simpl.
  assert (c0 ∈ named) as [[Ht Ha] _]%list_elem_of_filter.
  { destruct named; [done|]. injection Hhd as ->. left. }
  by split_and!.
Qed.

Lemma per_task_exact_pair_witness :
  ∃ m w,
    metrics_after plain_tasks init = Ok (m, w)
    ∧ call_plan_A ∈ live_calls plain_tasks
    ∧ Forall (λ c', underscore_free (arg_task_name c') = true)
        (live_calls plain_tasks)
    ∧ (∃ e,
         WorkflowTokenMetrics.per_task m !! "plan_agent_A" = Some e
         ∧ TaskTokenMetrics.task_name e = "plan"
         ∧ TaskTokenMetrics.agent_name e = "agent_A"
         ∧ TaskTokenMetrics.total_tokens e = 17
         ∧ TaskTokenMetrics.prompt_tokens e = 11
         ∧ TaskTokenMetrics.completion_tokens e = 6
         ∧ TaskTokenMetrics.call_count e = 2
         ∧ TaskTokenMetrics.calls e
           = [record_of call_plan_A; record_of call_plan_A']).
Proof.
  eexists _, _.
  match goal with
  | |- ?H1 ∧ ?H2 ∧ ?H3 ∧ _ =>
    assert (h1 : H1) by reflexivity;
    assert (h2 : H2) by left;
    assert (h3 : H3) by (repeat constructor);
    exact (conj h1 (conj h2 (conj h3
             (per_task_exact_pair plain_tasks _ _ call_plan_A h1 h2 h3))))
  end.
Defined.

(** ** Calls with counts that are not negative *)

Lemma sum_by_filter_bounds {A} (f : A → Z) (P : A → Prop)
    `{!∀ x, Decision (P x)} (l : list A) :
  Forall (λ x, 0 ≤ f x) l → 0 ≤ sum_by f (filter P l) ≤ sum_by f l.
Proof.
  unfold sum_by. induction 1 as [|x l Hx Hl IH]; simpl; [lia|].
  rewrite filter_cons. destruct (decide (P x)); simpl; lia.
Qed.

Lemma sum_by_nonneg {A} (f : A → Z) (l : list A) :
  Forall (λ x, 0 ≤ f x) l → 0 ≤ sum_by f l.
Proof. unfold sum_by. induction 1; simpl; lia. Qed.

(** X13.  When no call made since the last [reset] has a negative count,
    no count in the aggregate is negative and no entry of [per_agent] or
    [per_task] exceeds the workflow totals. *)
Theorem nonneg_calls_bounds ops m w :
  metrics_after ops init = Ok (m, w) →
  Forall nonneg_call (live_calls ops) →
  0 ≤ WorkflowTokenMetrics.prompt_tokens m
  ∧ 0 ≤ WorkflowTokenMetrics.completion_tokens m
  ∧ 0 ≤ WorkflowTokenMetrics.total_tokens m
  ∧ map_Forall (λ _ e,
      0 ≤ AgentTokenMetrics.prompt_tokens e
          ≤ WorkflowTokenMetrics.prompt_tokens m
      ∧ 0 ≤ AgentTokenMetrics.completion_tokens e
            ≤ WorkflowTokenMetrics.completion_tokens m
      ∧ 0 ≤ AgentTokenMetrics.total_tokens e
            ≤ WorkflowTokenMetrics.total_tokens m)
      (WorkflowTokenMetrics.per_agent m)
  ∧ map_Forall (λ _ e,
      0 ≤ TaskTokenMetrics.prompt_tokens e
          ≤ WorkflowTokenMetrics.prompt_tokens m
      ∧ 0 ≤ TaskTokenMetrics.completion_tokens e
            ≤ WorkflowTokenMetrics.completion_tokens m
      ∧ 0 ≤ TaskTokenMetrics.total_tokens e
            ≤ WorkflowTokenMetrics.total_tokens m)
      (WorkflowTokenMetrics.per_task m).
Proof.
  intros [Hacc _]%metrics_after_accounts Hnn.
  assert (Forall (λ c, 0 ≤ arg_prompt_tokens c) (live_calls ops)) as Hp.
  { eapply Forall_impl; [exact Hnn|]. by intros c [? ?]. }
  assert (Forall (λ c, 0 ≤ arg_completion_tokens c) (live_calls ops)) as Hc.
  { eapply Forall_impl; [exact Hnn|]. by intros c [? ?]. }
  assert (Forall (λ c, 0 ≤ arg_total c) (live_calls ops)) as Ht.
  { eapply Forall_impl; [exact Hnn|]. intros c [? ?]. unfold arg_total. lia. }
  rewrite (acc_total _ _ Hacc), (acc_prompt _ _ Hacc), (acc_completion _ _ Hacc).
  split_and!; [by apply sum_by_nonneg..| |].
  - intros a e. rewrite (acc_agent _ _ Hacc).
    intros [_ ->]%agent_view_Some. simpl.
    split_and!; by apply sum_by_filter_bounds.
  - intros k e. rewrite (acc_task _ _ Hacc).
    intros (c0 & _ & ->)%task_view_Some. simpl.
    split_and!; by apply sum_by_filter_bounds.
Qed.

Lemma nonneg_calls_bounds_witness :
  ∃ m w,
    metrics_after two_agents init = Ok (m, w)
    ∧ Forall nonneg_call (live_calls two_agents)
    ∧ 0 ≤ WorkflowTokenMetrics.total_tokens m
    ∧ map_Forall (λ _ e,
        0 ≤ AgentTokenMetrics.total_tokens e
            ≤ WorkflowTokenMetrics.total_tokens m)
        (WorkflowTokenMetrics.per_agent m).
Proof.
  eexists _, _.
  match goal with
  | |- ?H1 ∧ ?H2 ∧ _ =>
    assert (h1 : H1) by reflexivity;
    assert (h2 : H2) by (repeat constructor; simpl; lia);
    pose proof (nonneg_calls_bounds two_agents _ _ h1 h2)
      as (_ & _ & h3 & h4 & _)
  end.
  split_and!; [done..|].
  intros a e He. by destruct (h4 a e He) as (_ & _ & ?).
Defined.

Lemma totals_order_independent_witness :
  [call_A; call_B] ≡ₚ [call_B; call_A]
  ∧ ∃ m w m' w',
      metrics_after (RecordLLMCall <$> [call_A; call_B]) init = Ok (m, w)
      ∧ metrics_after (RecordLLMCall <$> [call_B; call_A]) init = Ok (m', w')
      ∧ WorkflowTokenMetrics.total_tokens m
        = WorkflowTokenMetrics.total_tokens m'
      ∧ WorkflowTokenMetrics.prompt_tokens m
        = WorkflowTokenMetrics.prompt_tokens m'
      ∧ WorkflowTokenMetrics.completion_tokens m
        = WorkflowTokenMetrics.completion_tokens m'.
Proof.
  refine (let h := perm_swap call_B call_A [] in
          conj h (totals_order_independent _ _ h)).
Defined.

(** ** Model, call type and clock *)

Lemma filter_counts_only (P : llm_call → Prop) `{!∀ c, Decision (P c)}
    (l : list llm_call) :
  (∀ c, P (counts_only c) ↔ P c) →
  filter P (counts_only <$> l) = counts_only <$> filter P l.
Proof.
  intros HP. rewrite list_filter_fmap'. f_equal.
  apply list_filter_iff. intros c. apply HP.
Qed.

Lemma agent_view_counts_only a log :
  agent_counts <$> agent_view a (counts_only <$> log)
  = agent_counts <$> agent_view a log.
Proof.
  unfold agent_view.
  rewrite (filter_counts_only (λ c, arg_agent_name c = a)) by done.
  destruct (filter _ log) as [|c0 l]; [done|].
  rewrite fmap_cons. simpl. unfold agent_counts. simpl.
  rewrite length_fmap. unfold sum_by. simpl.
  rewrite !foldr_fmap. done.
Qed.

Lemma task_view_counts_only k log :
  task_counts <$> task_view k (counts_only <$> log)
  = task_counts <$> task_view k log.
Proof.
  unfold task_view.
  rewrite (filter_counts_only (λ c, key_of c = k)) by done.
  destruct (filter _ log) as [|c0 l]; [done|].
  rewrite fmap_cons. simpl. unfold task_counts. simpl.
  rewrite length_fmap. unfold sum_by. simpl.
  rewrite !foldr_fmap. done.
Qed.

(** X14.  The numbers of the aggregate depend only on the agent name, task
    name and two counts of each call: recording the same calls with other
    clock readings, models and call types gives the same workflow totals
    and, key by key, the same names, counts and [call_count] in [per_agent]
    and [per_task]. *)
Theorem counts_ignore_model_type_clock ops :
  ∃ m w m' w',
    metrics_after ops init = Ok (m, w)
    ∧ metrics_after (RecordLLMCall <$> (counts_only <$> live_calls ops)) init
      = Ok (m', w')
    ∧ WorkflowTokenMetrics.total_tokens m = WorkflowTokenMetrics.total_tokens m'
    ∧ WorkflowTokenMetrics.prompt_tokens m
      = WorkflowTokenMetrics.prompt_tokens m'
    ∧ WorkflowTokenMetrics.completion_tokens m
      = WorkflowTokenMetrics.completion_tokens m'
    ∧ agent_counts <$> WorkflowTokenMetrics.per_agent m
      = agent_counts <$> WorkflowTokenMetrics.per_agent m'
    ∧ task_counts <$> WorkflowTokenMetrics.per_task m
      = task_counts <$> WorkflowTokenMetrics.per_task m'.
Proof.
  destruct (metrics_after_sound ops) as (m & w & Hrun & Hacc & _).
  destruct (metrics_after_sound
              (RecordLLMCall <$> (counts_only <$> live_calls ops)))
    as (m' & w' & Hrun' & Hacc' & _).
  unfold live_calls in Hacc' at 1. rewrite live_calls_from_records in Hacc'.
  simpl in Hacc'.
  exists m, w, m', w'. split_and!; [done..| | | | |].
  - rewrite (acc_total _ _ Hacc), (acc_total _ _ Hacc'). by rewrite sum_by_fmap.
  - rewrite (acc_prompt _ _ Hacc), (acc_prompt _ _ Hacc').
    by rewrite sum_by_fmap.
  - rewrite (acc_completion _ _ Hacc), (acc_completion _ _ Hacc').
    by rewrite sum_by_fmap.
  - apply map_eq. intros a.
    rewrite !lookup_fmap, (acc_agent _ _ Hacc), (acc_agent _ _ Hacc').
    symmetry. apply agent_view_counts_only.
  - apply map_eq. intros k.
    rewrite !lookup_fmap, (acc_task _ _ Hacc), (acc_task _ _ Hacc').
    symmetry. apply task_view_counts_only.
Qed.
